(** * glcd: page-addressed monochrome rasterizer (trunk/glcd/glcd.cpp)

    A shallow embedding of the drawing routines of [glcd.cpp] over a model
    of the pixel memory they drive, followed by the properties of the
    specification that concern them.

    Conventions.
    - [uint8_t], [int8_t] and the 16-bit AVR [int] are integers of [Z] with
      the wrap-around written out ([u8], [i8], [i16]) at every assignment.
    - Every C loop is a [while_loop] with its condition and its body; a loop
      that has not finished when the fuel runs out yields [None].  The
      theorems give the fuel that is enough, so a result is a result of the
      routine and not of the fuel.
    - [DISPLAY_WIDTH] and [DISPLAY_HEIGHT] come from [glcd_Config.h], which
      is not part of the sources at hand: they are the variables of the
      section [Canvas]. *)

From Stdlib Require Import ZArith Lia List Bool.
Import ListNotations.
Open Scope Z_scope.

(** ** Machine integers *)

Definition u8 (z : Z) : Z := z mod 256.
Definition i8 (z : Z) : Z := (z + 128) mod 256 - 128.
Definition i16 (z : Z) : Z := (z + 32768) mod 65536 - 32768.

(** ** Loops and failure *)

Definition bind {A B : Type} (m : option A) (f : A -> option B) : option B :=
  match m with
  | Some a => f a
  | None => None
  end.

Notation "x <- m ;; k" := (bind m (fun x => k))
  (at level 61, m at next level, right associativity).

Fixpoint while_loop {S : Type} (fuel : nat) (cond : S -> bool)
    (body : S -> option S) (s : S) : option S :=
  match fuel with
  | O => None
  | Datatypes.S fuel' =>
      if cond s then
        match body s with
        | Some s' => while_loop fuel' cond body s'
        | None => None
        end
      else Some s
  end.

(** ** Colors

    Modelled from the spec: the constants [BLACK] and [WHITE] of [glcd.h],
    the spec's FOREGROUND and BACKGROUND.  [ClearPage] writes the color as a
    page byte and [DrawBitmap] clears with [WHITE] before pixels are ORed in,
    so the foreground byte has its eight pixels on and the background byte
    has them off. *)

Definition BLACK : Z := 255.
Definition WHITE : Z := 0.

(** ** Pixel memory and the device primitives

    The canvas is a grid of pixels; the byte of page [p] at column [x] has
    its bit [b] (0 = top) at pixel [(x, 8 * p + b)].  The cursor keeps the
    column and the row it was sent to; [Inverted] is the display-mode flag
    of the engine. *)

Record glcd : Type := mkGlcd {
  pix : Z -> Z -> bool;
  Coord_x : Z;
  Coord_y : Z;
  Inverted : Z
}.

(** The byte made of the eight pixels of column [x] from row [y0] down. *)
Definition page_byte (p : Z -> Z -> bool) (x y0 : Z) : Z :=
  fold_right (fun b acc => Z.b2z (p x (y0 + b)) + 2 * acc) 0
             [0; 1; 2; 3; 4; 5; 6; 7].

(** Modelled from the spec: [glcd_Device::GotoXY], which is not part of the
    sources at hand.  "Sets cursor to column x, page y/8": the row is kept as
    it is given, its page is [y / 8] and its offset in the page [y mod 8]. *)
Definition GotoXY (x y : Z) (d : glcd) : glcd :=
  {| pix := pix d; Coord_x := x; Coord_y := y; Inverted := Inverted d |}.

(** Modelled from the spec: [glcd_Device::ReadData], which is not part of
    the sources at hand.  "Reads one vertical byte at cursor": the byte of
    the cursor's page.  For the cursor, the interface section of the spec
    has "auto-increments cursor's x" and, in the same sentence, the cursor
    semantics "required by invert's read-then-write-same-column pattern";
    [InvertRect] calls [ReadData] and then [WriteData] once per column, with
    no [GotoXY] in between, "for every column in [x,x+w], read the existing
    byte, invert it, and recombine".  So the write that follows a read falls
    on the column that was read: a read leaves the device as it is. *)
Definition ReadData (d : glcd) : Z :=
  page_byte (pix d) (Coord_x d) (8 * (Coord_y d / 8)).

(** Modelled from the spec: [glcd_Device::WriteData], which is not part of
    the sources at hand.  "Writes one vertical byte at cursor,
    auto-increments cursor's x"; it "bitwise-ORs or replaces": on a page
    boundary the byte replaces the page byte, otherwise its pixels are ORed
    into the eight rows from the cursor's row down, which span two pages
    (the comment in [DrawBitmap]: "the low level WriteData() routine ORs in
    the pixels when data spans a LCD memory page"). *)
Definition WriteData (data : Z) (d : glcd) : glcd :=
  let x := Coord_x d in
  let y := Coord_y d in
  {| pix := fun a b =>
       if (a =? x) && (y <=? b) && (b <? y + 8) then
         if y mod 8 =? 0 then Z.testbit data (b - y)
         else pix d a b || Z.testbit data (b - y)
       else pix d a b;
     Coord_x := u8 (x + 1);
     Coord_y := y;
     Inverted := Inverted d |}.

(** Modelled from the spec: [glcd_Device::SetDot], which is not part of the
    sources at hand.  "Sets/clears a single pixel without disturbing the rest
    of its page byte": the pixel is on for [BLACK] and off otherwise. *)
Definition SetDot (x y color : Z) (d : glcd) : glcd :=
  {| pix := fun a b => if (a =? x) && (b =? y) then color =? BLACK else pix d a b;
     Coord_x := Coord_x d;
     Coord_y := Coord_y d;
     Inverted := Inverted d |}.

(** Modelled from the spec: [glcd_Device::SetPixels], which is not part of
    the sources at hand.  The "bulk pixel-region set": "set every pixel in
    the closed-inclusive box" between the two corners it is given. *)
Definition SetPixels (x1 y1 x2 y2 color : Z) (d : glcd) : glcd :=
  {| pix := fun a b =>
       if (x1 <=? a) && (a <=? x2) && (y1 <=? b) && (b <=? y2)
       then color =? BLACK else pix d a b;
     Coord_x := Coord_x d;
     Coord_y := Coord_y d;
     Inverted := Inverted d |}.

(** [ReadPgmData]: the byte at [ptr] of the program memory that starts at
    the bitmap; a zero is read past the end of the data. *)
Definition ReadPgmData (bitmap : list Z) (ptr : Z) : Z :=
  nth (Z.to_nat ptr) bitmap 0.

(** ** The macros of [DrawLine] *)

Definition _GLCD_absDiff (x y : Z) : Z := if x >? y then x - y else y - x.

Section Canvas.

Variables DISPLAY_WIDTH DISPLAY_HEIGHT : Z.

(** ** ClearPage, ClearScreen *)

Definition ClearPage (fuel : nat) (page startX length color : Z) (d : glcd)
    : option glcd :=
  let length :=
    if startX + length >? DISPLAY_WIDTH then u8 (DISPLAY_WIDTH - startX)
    else length in
  let d := GotoXY startX (u8 (page * 8)) d in
  s <- while_loop fuel
         (fun s => negb (fst s =? 0))
         (fun s => Some (u8 (fst s - 1), WriteData color (snd s)))
         (length, d) ;;
  Some (snd s).

(** The two-argument overload [ClearPage(page, color)]. *)
Definition ClearPage_row (fuel : nat) (page color : Z) (d : glcd) : option glcd :=
  ClearPage fuel page 0 (u8 DISPLAY_WIDTH) color d.

Definition ClearScreen (fuel : nat) (color : Z) (d : glcd) : option glcd :=
  s <- while_loop fuel
         (fun s => fst s <? 8)
         (fun s => d' <- ClearPage_row fuel (fst s) color (snd s) ;;
                   Some (u8 (fst s + 1), d'))
         (0, d) ;;
  Some (snd s).

(** ** DrawLine *)

Record line_locals : Type := mkLine {
  ln_x : Z;
  ln_y : Z;
  ln_error : Z;
  ln_dev : glcd
}.

(** The body of the [for] loop of [DrawLine]. *)
Definition DrawLine_body (steep : bool) (deltax deltay ystep color : Z)
    (s : line_locals) : option line_locals :=
  let d := if steep then SetDot (ln_y s) (ln_x s) color (ln_dev s)
           else SetDot (ln_x s) (ln_y s) color (ln_dev s) in
  let error := i8 (ln_error s - deltay) in
  let '(y, error) :=
    if error <? 0 then (u8 (ln_y s + ystep), i8 (error + deltax))
    else (ln_y s, error) in
  Some (mkLine (u8 (ln_x s + 1)) y error d).

Definition DrawLine (fuel : nat) (x1 y1 x2 y2 color : Z) (d : glcd)
    : option glcd :=
  (* fudge up values of coordinate if out of range *)
  let x1 := if x1 >=? DISPLAY_WIDTH then 0 else x1 in
  let x2 := if x2 >=? DISPLAY_WIDTH then 0 else x2 in
  let y1 := if y1 >=? DISPLAY_HEIGHT then 0 else y1 in
  let y2 := if y2 >=? DISPLAY_HEIGHT then 0 else y2 in
  let steep := _GLCD_absDiff y1 y2 >? _GLCD_absDiff x1 x2 in
  let '(x1, y1, x2, y2) :=
    if steep then (y1, x1, y2, x2) else (x1, y1, x2, y2) in
  let '(x1, y1, x2, y2) :=
    if x1 >? x2 then (x2, y2, x1, y1) else (x1, y1, x2, y2) in
  let deltax := u8 (x2 - x1) in
  let deltay := u8 (_GLCD_absDiff y2 y1) in
  let error := i8 (deltax / 2) in
  let y := y1 in
  let ystep := if y1 <? y2 then 1 else -1 in
  s <- while_loop fuel
         (fun s => ln_x s <=? x2)
         (DrawLine_body steep deltax deltay ystep color)
         (mkLine x1 y error d) ;;
  Some (ln_dev s).

(** ** Rectangles and the line helpers *)

Definition DrawVLine (x y height color : Z) (d : glcd) : glcd :=
  SetPixels x y x (u8 (y + height)) color d.

Definition DrawHLine (x y width color : Z) (d : glcd) : glcd :=
  SetPixels x y (u8 (x + width)) y color d.

Definition DrawRect (x y width height color : Z) (d : glcd) : glcd :=
  let d := DrawHLine x y width color d in                   (* top *)
  let d := DrawHLine x (u8 (y + height)) width color d in   (* bottom *)
  let d := DrawVLine x y height color d in                  (* left *)
  DrawVLine (u8 (x + width)) y height color d.              (* right *)

(** ** DrawRoundRect *)

Record arc_locals : Type := mkArc {
  rr_tSwitch : Z;
  rr_x1 : Z;
  rr_y1 : Z
}.

(** The arithmetic of one turn of the loop of [DrawRoundRect], after its
    eight dots. *)
Definition DrawRoundRect_step (l : arc_locals) : arc_locals :=
  let '(tSwitch, y1) :=
    if rr_tSwitch l <? 0
    then (i16 (rr_tSwitch l + (4 * rr_x1 l + 6)), rr_y1 l)
    else (i16 (rr_tSwitch l + (4 * (rr_x1 l - rr_y1 l) + 10)),
          u8 (rr_y1 l - 1)) in
  mkArc tSwitch (u8 (rr_x1 l + 1)) y1.

(** The eight dots of one turn. *)
Definition DrawRoundRect_dots (x y width height radius color x1 y1 : Z)
    (d : glcd) : glcd :=
  let d := SetDot (u8 (x + radius - x1)) (u8 (y + radius - y1)) color d in
  let d := SetDot (u8 (x + radius - y1)) (u8 (y + radius - x1)) color d in
  let d := SetDot (u8 (x + width - radius + x1)) (u8 (y + radius - y1)) color d in
  let d := SetDot (u8 (x + width - radius + y1)) (u8 (y + radius - x1)) color d in
  let d := SetDot (u8 (x + width - radius + x1)) (u8 (y + height - radius + y1)) color d in
  let d := SetDot (u8 (x + width - radius + y1)) (u8 (y + height - radius + x1)) color d in
  let d := SetDot (u8 (x + radius - x1)) (u8 (y + height - radius + y1)) color d in
  SetDot (u8 (x + radius - y1)) (u8 (y + height - radius + x1)) color d.

Definition DrawRoundRect_body (x y width height radius color : Z)
    (s : arc_locals * glcd) : option (arc_locals * glcd) :=
  let l := fst s in
  Some (DrawRoundRect_step l,
        DrawRoundRect_dots x y width height radius color (rr_x1 l) (rr_y1 l)
          (snd s)).

Definition DrawRoundRect (fuel : nat) (x y width height radius color : Z)
    (d : glcd) : option glcd :=
  let x1 := 0 in
  let y1 := radius in
  let tSwitch := i16 (3 - 2 * radius) in
  s <- while_loop fuel
         (fun s => rr_x1 (fst s) <=? rr_y1 (fst s))
         (DrawRoundRect_body x y width height radius color)
         (mkArc tSwitch x1 y1, d) ;;
  let d := snd s in
  let d := DrawHLine (u8 (x + radius)) y (u8 (width - 2 * radius)) color d in  (* top *)
  let d := DrawHLine (u8 (x + radius)) (u8 (y + height))
             (u8 (width - 2 * radius)) color d in                               (* bottom *)
  let d := DrawVLine x (u8 (y + radius)) (u8 (height - 2 * radius)) color d in (* left *)
  let d := DrawVLine (u8 (x + width)) (u8 (y + radius))
             (u8 (height - 2 * radius)) color d in                              (* right *)
  Some d.

(** ** DrawCircle *)

Definition DrawCircle (fuel : nat) (xCenter yCenter radius color : Z)
    (d : glcd) : option glcd :=
  DrawRoundRect fuel (u8 (xCenter - radius)) (u8 (yCenter - radius))
    (u8 (2 * radius)) (u8 (2 * radius)) radius color d.

Definition FillRect (x y width height color : Z) (d : glcd) : glcd :=
  SetPixels x y (u8 (x + width)) (u8 (y + height)) color d.

(** ** InvertRect *)

(** The loop of the fractional pages, at the top and at the bottom of the
    region: [for(i=0; i<=width; i++)], read, flip under [mask], write. *)
Definition InvertRect_fractional (fuel : nat) (width mask : Z) (d : glcd)
    : option glcd :=
  s <- while_loop fuel
         (fun s => fst s <=? width)
         (fun s =>
            let d := snd s in
            let data := ReadData d in
            let tmpData := u8 (Z.lnot data) in
            let data := u8 (Z.lor (Z.land tmpData mask)
                                  (Z.land data (Z.lnot mask))) in
            Some (u8 (fst s + 1), WriteData data d))
         (0, d) ;;
  Some (snd s).

(** The loop of a full page: [for(i=0; i<=width; i++)], read, write [~data]. *)
Definition InvertRect_full (fuel : nat) (width : Z) (d : glcd) : option glcd :=
  s <- while_loop fuel
         (fun s => fst s <=? width)
         (fun s =>
            let d := snd s in
            let data := ReadData d in
            Some (u8 (fst s + 1), WriteData (u8 (Z.lnot data)) d))
         (0, d) ;;
  Some (snd s).

Definition InvertRect (fuel : nat) (x y width height : Z) (d : glcd)
    : option glcd :=
  let height := u8 (height + 1) in
  let pageOffset := y mod 8 in
  let y := u8 (y - pageOffset) in
  let mask := 255 in
  let '(mask, h) :=
    if height <? 8 - pageOffset
    then (u8 (Z.shiftr mask (8 - height)), height)
    else (mask, 8 - pageOffset) in
  let mask := u8 (Z.shiftl mask pageOffset) in
  (* first do the fractional pages at the top of the region *)
  d <- InvertRect_fractional fuel width mask (GotoXY x y d) ;;
  (* now do the full pages *)
  s <- while_loop fuel
         (fun '(h, y, d) => h + 8 <=? height)
         (fun '(h, y, d) =>
            let h := u8 (h + 8) in
            let y := u8 (y + 8) in
            d <- InvertRect_full fuel width (GotoXY x y d) ;;
            Some (h, y, d))
         (h, y, d) ;;
  let '(h, y, d) := s in
  (* now do the fractional pages at the bottom of the region *)
  if h <? height then
    let mask := u8 (Z.lnot (Z.shiftl 255 (height - h))) in
    InvertRect_fractional fuel width mask (GotoXY x (u8 (y + 8)) d)
  else Some d.

(** ** SetDisplayMode *)

Definition SetDisplayMode (fuel : nat) (invert : Z) (d : glcd) : option glcd :=
  if negb (Inverted d =? invert) then
    d <- InvertRect fuel 0 0 (u8 (DISPLAY_WIDTH - 1)) (u8 (DISPLAY_HEIGHT - 1)) d ;;
    Some {| pix := pix d; Coord_x := Coord_x d; Coord_y := Coord_y d;
            Inverted := invert |}
  else Some d.

(** ** DrawBitmap (with [BITMAP_FIX] defined, as the file defines it) *)

(** The body of the inner loop: one byte of the bitmap is written. *)
Definition DrawBitmap_byte (bitmap : list Z) (color : Z)
    (t : Z * Z * glcd) : option (Z * Z * glcd) :=
  let '(i, ptr, d) := t in
  let displayData := ReadPgmData bitmap ptr in
  let ptr := ptr + 1 in
  let d := if color =? BLACK then WriteData displayData d
           else WriteData (u8 (Z.lnot displayData)) d in
  Some (u8 (i + 1), ptr, d).

(** The body of the outer loop: one page row of the bitmap is written. *)
Definition DrawBitmap_row (fuel : nat) (bitmap : list Z)
    (x y width color : Z) (s : Z * Z * glcd) : option (Z * Z * glcd) :=
  let '(j, ptr, d) := s in
  let d := GotoXY x (u8 (y + j * 8)) d in
  t <- while_loop fuel
         (fun '(i, ptr, d) => i <? width)
         (DrawBitmap_byte bitmap color)
         (0, ptr, d) ;;
  let '(i, ptr, d) := t in
  Some (u8 (j + 1), ptr, d).

Definition DrawBitmap (fuel : nat) (bitmap : list Z) (x y color : Z)
    (d : glcd) : option glcd :=
  let ptr := 0 in
  let width := ReadPgmData bitmap ptr in
  let ptr := ptr + 1 in
  let height := ReadPgmData bitmap ptr in
  let ptr := ptr + 1 in
  let d :=
    if negb (Z.land y 7 =? 0) || negb (Z.land height 7 =? 0)
    then FillRect x y width height WHITE d
    else d in
  s <- while_loop fuel
         (fun '(j, ptr, d) => j <? height / 8)
         (DrawBitmap_row fuel bitmap x y width color)
         (0, ptr, d) ;;
  let '(j, ptr, d) := s in
  Some d.

(** ** FillCircle *)

Record circle_locals : Type := mkCircle {
  fc_f : Z;
  fc_ddF_x : Z;
  fc_ddF_y : Z;
  fc_x : Z;
  fc_y : Z
}.

(** The arithmetic of one turn of the loop of [FillCircle], up to the
    four [DrawLine] calls. *)
Definition FillCircle_step (s : circle_locals) : circle_locals :=
  let '(y, ddF_y, f) :=
    if fc_f s >=? 0
    then (u8 (fc_y s - 1), i16 (fc_ddF_y s + 2), i16 (fc_f s + i16 (fc_ddF_y s + 2)))
    else (fc_y s, fc_ddF_y s, fc_f s) in
  let x := u8 (fc_x s + 1) in
  let ddF_x := i16 (fc_ddF_x s + 2) in
  let f := i16 (f + ddF_x) in
  mkCircle f ddF_x ddF_y x y.

(** The body of the loop of [FillCircle]: the step and the four lines. *)
Definition FillCircle_body (fuel : nat) (x0 y0 color : Z)
    (s : circle_locals * glcd) : option (circle_locals * glcd) :=
  let l := FillCircle_step (fst s) in
  let x := fc_x l in
  let y := fc_y l in
  let d := snd s in
  d <- DrawLine fuel (u8 (x0 + x)) (u8 (y0 + y)) (u8 (x0 + x)) (u8 (y0 - y)) color d ;;
  d <- DrawLine fuel (u8 (x0 - x)) (u8 (y0 + y)) (u8 (x0 - x)) (u8 (y0 - y)) color d ;;
  d <- DrawLine fuel (u8 (x0 + y)) (u8 (y0 + x)) (u8 (y + x0)) (u8 (y0 - x)) color d ;;
  d <- DrawLine fuel (u8 (x0 - y)) (u8 (y0 + x)) (u8 (x0 - y)) (u8 (y0 - x)) color d ;;
  Some (l, d).

Definition FillCircle (fuel : nat) (x0 y0 radius color : Z) (d : glcd)
    : option glcd :=
  let f := i16 (1 - radius) in
  let ddF_x := 1 in
  let ddF_y := i16 (-2 * radius) in
  let x := 0 in
  let y := radius in
  (* fill in the center between the two halves *)
  d <- DrawLine fuel x0 (u8 (y0 - radius)) x0 (u8 (y0 + radius)) color d ;;
  s <- while_loop fuel
         (fun s => fc_x (fst s) <? fc_y (fst s))
         (FillCircle_body fuel x0 y0 color)
         (mkCircle f ddF_x ddF_y x y, d) ;;
  Some (snd s).

End Canvas.

(** ** write and Puts_P

    The text renderer [Text] (class [gText]) is not part of the sources at
    hand: its state is any type [T] and its [PutChar] any function on it. *)

Section Text.

Variable T : Type.
Variable PutChar : Z -> T -> T.

Definition write (c : Z) (t : T) : T := PutChar c t.

(** [str] is the program memory from the pointer on; [char c] is signed and
    [write] takes it back as a [uint8_t]. *)
Definition Puts_P (fuel : nat) (str : list Z) (t : T) : option T :=
  s <- while_loop fuel
         (fun s => negb (i8 (ReadPgmData str (fst s)) =? 0))
         (fun s =>
            let c := i8 (ReadPgmData str (fst s)) in
            Some (fst s + 1, write (u8 c) (snd s)))
         (0, t) ;;
  Some (snd s).

End Text.

(** ** States and sets of pixels used in the statements *)

(** The canvas with every pixel off, the cursor at the origin, not inverted. *)
Definition blank : glcd :=
  {| pix := fun _ _ => false; Coord_x := 0; Coord_y := 0; Inverted := 0 |}.

(** The closed box of the columns [x .. x + w] and the rows [y .. y + h]. *)
Definition in_box (x y w h a b : Z) : bool :=
  (x <=? a) && (a <=? x + w) && (y <=? b) && (b <=? y + h).

(** The outline of that box: its pixels on one of the four sides. *)
Definition on_outline (x y w h a b : Z) : bool :=
  in_box x y w h a b
  && ((a =? x) || (a =? x + w) || (b =? y) || (b =? y + h)).

(** [left], [top], [right] and [bottom] bound the set [S] of pixels, and
    each of the four is reached by a pixel of [S]. *)
Definition bounding_box (S : Z -> Z -> bool) (left top right bottom : Z)
    : Prop :=
  (forall a b, S a b = true -> left <= a <= right /\ top <= b <= bottom) /\
  (exists b, S left b = true) /\ (exists b, S right b = true) /\
  (exists a, S a top = true) /\ (exists a, S a bottom = true).

(** The pixel of column [i] and row [r] of a bitmap: its data bytes follow
    the two header bytes in page-major order, a row of [width] bytes per
    page, bit 0 of a byte at the top. *)
Definition bitmap_pixel (bitmap : list Z) (i r : Z) : bool :=
  Z.testbit (ReadPgmData bitmap (2 + (r / 8) * ReadPgmData bitmap 0 + i))
            (r mod 8).

(** The chords that the loop of [FillCircle] draws from the locals [s] on:
    a turn at [x], [y] draws vertical lines in the columns [x0 + x] and
    [x0 - x] over the rows [y0 - y .. y0 + y], and in the columns [x0 + y]
    and [x0 - y] over the rows [y0 - x .. y0 + x].  A chord is the offset of
    its two columns and its half height. *)
Fixpoint FillCircle_chords (fuel : nat) (s : circle_locals) : list (Z * Z) :=
  match fuel with
  | O => []
  | Datatypes.S fuel' =>
      if fc_x s <? fc_y s then
        let l := FillCircle_step s in
        (fc_x l, fc_y l) :: (fc_y l, fc_x l) :: FillCircle_chords fuel' l
      else []
  end.

Definition on_chord (dx dy : Z) (c : Z * Z) : bool :=
  (Z.abs dx =? fst c) && (Z.abs dy <=? snd c).

(** The chords of [FillCircle]: the diameter through the center, drawn
    first, and the chords of the loop from its initial locals. *)
Definition FillCircle_all_chords (radius : Z) : list (Z * Z) :=
  (0, radius)
  :: FillCircle_chords 256
       (mkCircle (i16 (1 - radius)) 1 (i16 (-2 * radius)) 0 radius).

(** The set of pixels of [FillCircle], as offsets from the center. *)
Definition FillCircle_pixels (radius dx dy : Z) : bool :=
  existsb (on_chord dx dy) (FillCircle_all_chords radius).

Definition range (n : nat) : list Z := map Z.of_nat (seq 0 n).

(** The check of one radius, over the chords [(c, e)] of [FillCircle]:
    offsets and half heights are not negative; the column before a chord
    has a chord at least as high; and the column [e] has a chord of half
    height [c] or more, which is the chord mirrored in the diagonal. *)
Definition chords_check (radius : Z) : bool :=
  let cs := FillCircle_all_chords radius in
  forallb (fun c =>
             (0 <=? fst c) && (0 <=? snd c)
             && ((fst c =? 0) || existsb (on_chord (fst c - 1) (snd c)) cs)
             && existsb (on_chord (snd c) (fst c)) cs) cs.

(** The pixel that [DrawBitmap] writes for the pixel [(i, r)] of the bitmap:
    the bitmap's for [BLACK], its complement otherwise. *)
Definition drawn_pixel (bitmap : list Z) (color i r : Z) : bool :=
  xorb (bitmap_pixel bitmap i r) (negb (color =? BLACK)).

(** The chords of a radius stay within the radius. *)
Definition chords_bounded (radius : Z) : bool :=
  forallb (fun c => (fst c <=? radius) && (snd c <=? radius))
          (FillCircle_all_chords radius).

(** The pairs [(x1, y1)] at which the loop of [DrawRoundRect] sets its dots,
    from the locals [l] on; [None] when the loop has not ended within the
    fuel. *)
Fixpoint DrawRoundRect_arcs (fuel : nat) (l : arc_locals)
    : option (list (Z * Z)) :=
  match fuel with
  | O => None
  | Datatypes.S fuel' =>
      if rr_x1 l <=? rr_y1 l then
        match DrawRoundRect_arcs fuel' (DrawRoundRect_step l) with
        | Some pts => Some ((rr_x1 l, rr_y1 l) :: pts)
        | None => None
        end
      else Some []
  end.

Definition DrawRoundRect_points (radius : Z) : list (Z * Z) :=
  match DrawRoundRect_arcs 256 (mkArc (i16 (3 - 2 * radius)) 0 radius) with
  | Some pts => pts
  | None => []
  end.

(** The eight dots of the pair [p], as [DrawRoundRect_dots] sets them. *)
Definition DrawRoundRect_dot_list (x y width height radius : Z) (p : Z * Z)
    : list (Z * Z) :=
  [ (u8 (x + radius - fst p), u8 (y + radius - snd p));
    (u8 (x + radius - snd p), u8 (y + radius - fst p));
    (u8 (x + width - radius + fst p), u8 (y + radius - snd p));
    (u8 (x + width - radius + snd p), u8 (y + radius - fst p));
    (u8 (x + width - radius + fst p), u8 (y + height - radius + snd p));
    (u8 (x + width - radius + snd p), u8 (y + height - radius + fst p));
    (u8 (x + radius - fst p), u8 (y + height - radius + snd p));
    (u8 (x + radius - snd p), u8 (y + height - radius + fst p)) ].

Definition at_point (a b : Z) (q : Z * Z) : bool :=
  (a =? fst q) && (b =? snd q).

(** The box between two corners, as [SetPixels] has it. *)
Definition in_rect (x1 y1 x2 y2 a b : Z) : bool :=
  (x1 <=? a) && (a <=? x2) && (y1 <=? b) && (b <=? y2).

(** The pixels that [DrawRoundRect] sets: the dots of its loop and its
    four straight lines. *)
Definition DrawRoundRect_pixels (x y width height radius a b : Z) : bool :=
  existsb (at_point a b)
    (flat_map (DrawRoundRect_dot_list x y width height radius)
       (DrawRoundRect_points radius))
  || in_rect (u8 (x + radius)) y
       (u8 (u8 (x + radius) + u8 (width - 2 * radius))) y a b
  || in_rect (u8 (x + radius)) (u8 (y + height))
       (u8 (u8 (x + radius) + u8 (width - 2 * radius))) (u8 (y + height)) a b
  || in_rect x (u8 (y + radius))
       x (u8 (u8 (y + radius) + u8 (height - 2 * radius))) a b
  || in_rect (u8 (x + width)) (u8 (y + radius))
       (u8 (x + width)) (u8 (u8 (y + radius) + u8 (height - 2 * radius))) a b.

(** The check of one radius: the loop of [DrawRoundRect] ends. *)
Definition arcs_end (radius : Z) : bool :=
  match DrawRoundRect_arcs 256 (mkArc (i16 (3 - 2 * radius)) 0 radius) with
  | Some _ => true
  | None => false
  end.

(** The eight dots of the pair [p] without the [uint8_t] conversions. *)
Definition round_dots (x y width height radius : Z) (p : Z * Z)
    : list (Z * Z) :=
  [ (x + radius - fst p, y + radius - snd p);
    (x + radius - snd p, y + radius - fst p);
    (x + width - radius + fst p, y + radius - snd p);
    (x + width - radius + snd p, y + radius - fst p);
    (x + width - radius + fst p, y + height - radius + snd p);
    (x + width - radius + snd p, y + height - radius + fst p);
    (x + radius - fst p, y + height - radius + snd p);
    (x + radius - snd p, y + height - radius + fst p) ].

(** The check of one radius, over the pairs of the loop of [DrawRoundRect]:
    the first pair [(0, radius)] is among them; [0 <= x1 <= y1 <= radius]
    and [x1 < radius] for each; and each is a pixel of [FillCircle]. *)
Definition arcs_check (radius : Z) : bool :=
  let pts := DrawRoundRect_points radius in
  let cs := FillCircle_all_chords radius in
  existsb (at_point 0 radius) pts
  && forallb (fun p =>
                (0 <=? fst p) && (fst p <=? snd p) && (snd p <=? radius)
                && negb (fst p =? radius)
                && existsb (on_chord (fst p) (snd p)) cs) pts.

(** The pixels that [DrawCircle] sets, as offsets from the center. *)
Definition DrawCircle_pixels (radius dx dy : Z) : bool :=
  existsb (fun p =>
             (Z.abs dx =? fst p) && (Z.abs dy =? snd p)
             || (Z.abs dx =? snd p) && (Z.abs dy =? fst p))
          (DrawRoundRect_points radius).

(** * Properties *)

(** ** The embedding on concrete inputs *)

Example u8_wraps : u8 (-1) = 255 /\ u8 256 = 0 /\ i8 200 = -56 /\ i16 40000 = -25536.
Proof. repeat split; reflexivity. Qed.

Example page_byte_of_blank_with_dot :
  page_byte (pix (SetDot 4 10 BLACK blank)) 4 8 = 4.
Proof. reflexivity. Qed.

Example WriteData_replaces_on_a_page_boundary :
  ReadData (GotoXY 3 8 (WriteData 165 (GotoXY 3 8 (SetDot 3 9 BLACK blank)))) = 165.
Proof. reflexivity. Qed.

Example WriteData_ors_across_pages :
  let d := WriteData 255 (GotoXY 3 4 (SetDot 3 0 BLACK blank)) in
  ReadData (GotoXY 3 0 d) = 241 /\ ReadData (GotoXY 3 8 d) = 15.
Proof. split; reflexivity. Qed.

Example DrawLine_diagonal :
  option_map (fun d => (pix d 0 0, pix d 2 2, pix d 3 3, pix d 2 1, pix d 4 4))
    (DrawLine 128 64 300 0 0 3 3 BLACK blank)
  = Some (true, true, true, false, false).
Proof. vm_compute. reflexivity. Qed.

Example DrawLine_out_of_range_from_origin :
  option_map (fun d => (pix d 0 0, pix d 5 0, pix d 6 0, pix d 200 0))
    (DrawLine 128 64 300 200 0 5 0 BLACK blank)
  = Some (true, true, false, false).
Proof. vm_compute. reflexivity. Qed.

Example InvertRect_three_pages :
  option_map (fun d => (pix d 5 3, pix d 5 2, pix d 25 13, pix d 26 13,
                        pix d 25 14, pix d 4 8, pix d 15 8))
    (InvertRect 300 5 3 20 10 blank)
  = Some (true, false, true, false, false, false, true).
Proof. vm_compute. reflexivity. Qed.

Example ClearPage_clamped_at_the_edge :
  option_map (fun d => (pix d 126 16, pix d 127 23, pix d 128 16, pix d 127 24,
                        pix d 125 16))
    (ClearPage 128 300 2 126 50 BLACK blank)
  = Some (true, true, false, false, false).
Proof. vm_compute. reflexivity. Qed.

Example FillCircle_chords_of_radius_2 :
  FillCircle_all_chords 2 = [(0, 2); (1, 2); (2, 1); (2, 1); (1, 2)].
Proof. vm_compute. reflexivity. Qed.

Example FillCircle_radius_2 :
  option_map (fun d => (pix d 10 8, pix d 11 8, pix d 12 9, pix d 12 8,
                        pix d 8 12, pix d 10 13))
    (FillCircle 128 64 300 10 10 2 BLACK blank)
  = Some (true, true, true, false, false, false).
Proof. vm_compute. reflexivity. Qed.

Example DrawBitmap_on_a_page_boundary :
  option_map (fun d => (pix d 0 0, pix d 0 1, pix d 1 7, pix d 1 0, pix d 2 0))
    (DrawBitmap 300 [2; 8; 1; 128] 0 0 BLACK (SetDot 2 0 BLACK blank))
  = Some (true, false, true, false, true).
Proof. vm_compute. reflexivity. Qed.

Example DrawBitmap_off_a_page_boundary :
  option_map (fun d => (pix d 0 3, pix d 0 4, pix d 1 10, pix d 1 3, pix d 2 3,
                        pix d 3 3))
    (DrawBitmap 300 [2; 8; 1; 128] 0 3 BLACK
       (SetDot 3 3 BLACK (SetDot 2 3 BLACK (SetDot 1 3 BLACK blank))))
  = Some (true, false, true, false, false, true).
Proof. vm_compute. reflexivity. Qed.

(** ** Machine integers and loops *)

Lemma u8_small (z : Z) : 0 <= z < 256 -> u8 z = z.
Proof. intros Hz. unfold u8. apply Z.mod_small. exact Hz. Qed.

Lemma i8_small (z : Z) : -128 <= z < 128 -> i8 z = z.
Proof. intros Hz. unfold i8. rewrite Z.mod_small; lia. Qed.

(** Total correctness of a loop: an invariant [I] that the body keeps, and a
    measure [m] that it decreases, give a result that satisfies [I] and
    falsifies the condition once the fuel exceeds the measure. *)
Lemma while_loop_rule {S : Type} (I : S -> Prop) (m : S -> nat)
    (cond : S -> bool) (body : S -> option S) :
  (forall s, I s -> cond s = true ->
     exists s', body s = Some s' /\ I s' /\ (m s' < m s)%nat) ->
  forall fuel s, I s -> (m s < fuel)%nat ->
  exists s', while_loop fuel cond body s = Some s' /\ I s' /\ cond s' = false.
Proof.
  intros Hbody fuel.
  induction fuel as [|fuel IH]; intros s HI Hm.
  - lia.
  - simpl. destruct (cond s) eqn:Hc.
    + destruct (Hbody s HI Hc) as (s' & Hb & HI' & Hlt).
      rewrite Hb. apply IH; [exact HI' | lia].
    + exists s. auto.
Qed.

(** ** DrawLine: the order of the endpoints *)

Lemma absDiff_sym (x y : Z) : _GLCD_absDiff x y = _GLCD_absDiff y x.
Proof.
  unfold _GLCD_absDiff.
  destruct (Z.gtb_spec x y), (Z.gtb_spec y x); lia.
Qed.

Lemma DrawLine_comm (W H : Z) (fuel : nat) (x1 y1 x2 y2 color : Z) (d : glcd) :
  DrawLine W H fuel x1 y1 x2 y2 color d = DrawLine W H fuel x2 y2 x1 y1 color d.
Proof.
  unfold DrawLine.
  generalize (if x1 >=? W then 0 else x1); intros a1.
  generalize (if x2 >=? W then 0 else x2); intros a2.
  generalize (if y1 >=? H then 0 else y1); intros b1.
  generalize (if y2 >=? H then 0 else y2); intros b2.
  rewrite (absDiff_sym b2 b1), (absDiff_sym a2 a1).
  destruct (_GLCD_absDiff b1 b2 >? _GLCD_absDiff a1 a2) eqn:Hs.
  - destruct (Z.gtb_spec b1 b2), (Z.gtb_spec b2 b1); try lia; try reflexivity.
    assert (b1 = b2) by lia. subst b2.
    unfold _GLCD_absDiff in Hs. rewrite Z.gtb_ltb in Hs.
    apply Z.ltb_lt in Hs.
    destruct (Z.gtb_spec b1 b1), (Z.gtb_spec a1 a2); lia.
  - destruct (Z.gtb_spec a1 a2), (Z.gtb_spec a2 a1); try lia; try reflexivity.
    assert (a1 = a2) by lia. subst a2.
    unfold _GLCD_absDiff in Hs. rewrite Z.gtb_ltb in Hs.
    apply Z.ltb_ge in Hs.
    assert (b1 = b2) by (destruct (Z.gtb_spec b1 b2), (Z.gtb_spec a1 a1); lia).
    subst b2. reflexivity.
Qed.

(** The loop of [DrawLine] ends when its last column is below 255, the
    largest value of the [uint8_t] counter. *)
Lemma DrawLine_loop_total (steep : bool) (deltax deltay ystep color x2 : Z)
    (fuel : nat) (s : line_locals) :
  0 <= ln_x s <= x2 + 1 -> x2 <= 254 -> (256 < fuel)%nat ->
  exists s',
    while_loop fuel (fun s => ln_x s <=? x2)
      (DrawLine_body steep deltax deltay ystep color) s = Some s'.
Proof.
  intros Hx Hx2 Hfuel.
  destruct (while_loop_rule
              (fun t => 0 <= ln_x t <= x2 + 1)
              (fun t => Z.to_nat (x2 + 1 - ln_x t))
              (fun t => ln_x t <=? x2)
              (DrawLine_body steep deltax deltay ystep color)) with (fuel := fuel) (s := s)
    as (s' & Hs' & _); [| exact Hx | lia | eauto].
  intros t Ht Hc. apply Z.leb_le in Hc.
  unfold DrawLine_body.
  destruct (i8 (ln_error t - deltay) <? 0);
    (eexists; split; [reflexivity|]; simpl; rewrite u8_small by lia; lia).
Qed.

Lemma DrawLine_total (W H : Z) (fuel : nat) (x1 y1 x2 y2 color : Z) (d : glcd) :
  W <= 255 -> H <= 255 ->
  0 <= x1 < 256 -> 0 <= y1 < 256 -> 0 <= x2 < 256 -> 0 <= y2 < 256 ->
  (256 < fuel)%nat ->
  exists d', DrawLine W H fuel x1 y1 x2 y2 color d = Some d'.
Proof.
  intros HW HH Hx1 Hy1 Hx2 Hy2 Hfuel.
  unfold DrawLine.
  assert (Ha1 : 0 <= (if x1 >=? W then 0 else x1) <= 254)
    by (destruct (Z.geb_spec x1 W); lia).
  assert (Ha2 : 0 <= (if x2 >=? W then 0 else x2) <= 254)
    by (destruct (Z.geb_spec x2 W); lia).
  assert (Hb1 : 0 <= (if y1 >=? H then 0 else y1) <= 254)
    by (destruct (Z.geb_spec y1 H); lia).
  assert (Hb2 : 0 <= (if y2 >=? H then 0 else y2) <= 254)
    by (destruct (Z.geb_spec y2 H); lia).
  revert Ha1 Ha2 Hb1 Hb2.
  generalize (if x1 >=? W then 0 else x1); intros a1.
  generalize (if x2 >=? W then 0 else x2); intros a2.
  generalize (if y1 >=? H then 0 else y1); intros b1.
  generalize (if y2 >=? H then 0 else y2); intros b2.
  intros Ha1 Ha2 Hb1 Hb2.
  assert (Hbind : forall (m : option line_locals),
             (exists s, m = Some s) ->
             exists d', (s <- m ;; Some (ln_dev s)) = Some d').
  { intros m (s & ->). simpl. eauto. }
  destruct (_GLCD_absDiff b1 b2 >? _GLCD_absDiff a1 a2).
  - destruct (Z.gtb_spec b1 b2); apply Hbind, DrawLine_loop_total;
      simpl; lia.
  - destruct (Z.gtb_spec a1 a2); apply Hbind, DrawLine_loop_total;
      simpl; lia.
Qed.

(** ** Bytes and pixels *)

Lemma testbit_cons_0 (c : bool) (a : Z) : Z.testbit (Z.b2z c + 2 * a) 0 = c.
Proof. rewrite Z.add_comm. apply Z.testbit_0_r. Qed.

Lemma testbit_cons_succ (c : bool) (a n : Z) :
  0 <= n -> Z.testbit (Z.b2z c + 2 * a) (n + 1) = Z.testbit a n.
Proof.
  intros Hn. rewrite Z.add_comm. fold (Z.succ n). apply Z.testbit_succ_r. exact Hn.
Qed.

Ltac byte_index k :=
  assert (k = 0 \/ k = 1 \/ k = 2 \/ k = 3 \/ k = 4 \/ k = 5 \/ k = 6 \/ k = 7)
    as [-> | [-> | [-> | [-> | [-> | [-> | [-> | ->]]]]]]] by lia.

Lemma fold_bits_testbit (p : Z -> Z -> bool) (x y0 : Z) (l : list Z) (n : nat) :
  Z.testbit (fold_right (fun b acc => Z.b2z (p x (y0 + b)) + 2 * acc) 0 l)
            (Z.of_nat n)
  = match nth_error l n with
    | Some b => p x (y0 + b)
    | None => false
    end.
Proof.
  revert n. induction l as [|b l IH]; intros n.
  - simpl. rewrite Z.testbit_0_l. destruct n; reflexivity.
  - destruct n as [|n].
    + simpl. apply testbit_cons_0.
    + rewrite Nat2Z.inj_succ, <- Z.add_1_r.
      cbn [fold_right nth_error].
      rewrite testbit_cons_succ by lia. apply IH.
Qed.

Lemma page_byte_testbit (p : Z -> Z -> bool) (x y0 k : Z) :
  0 <= k < 8 -> Z.testbit (page_byte p x y0) k = p x (y0 + k).
Proof.
  intros Hk. unfold page_byte.
  rewrite <- (Z2Nat.id k) at 1 by lia.
  rewrite fold_bits_testbit.
  byte_index k; reflexivity.
Qed.

(** A byte flipped under a mask: [(~data & mask) | (data & ~mask)]. *)
Lemma flip_masked_testbit (data mask k : Z) :
  0 <= k < 8 ->
  Z.testbit (u8 (Z.lor (Z.land (u8 (Z.lnot data)) mask)
                       (Z.land data (Z.lnot mask)))) k
  = xorb (Z.testbit data k) (Z.testbit mask k).
Proof.
  intros Hk. unfold u8. change 256 with (2 ^ 8).
  rewrite Z.mod_pow2_bits_low by lia.
  rewrite Z.lor_spec, !Z.land_spec, Z.mod_pow2_bits_low by lia.
  rewrite !Z.lnot_spec by lia.
  destruct (Z.testbit data k), (Z.testbit mask k); reflexivity.
Qed.

Lemma flip_full_testbit (data k : Z) :
  0 <= k < 8 ->
  Z.testbit (u8 (Z.lnot data)) k = xorb (Z.testbit data k) true.
Proof.
  intros Hk. unfold u8. change 256 with (2 ^ 8).
  rewrite Z.mod_pow2_bits_low, Z.lnot_spec by lia.
  destruct (Z.testbit data k); reflexivity.
Qed.

Ltac zcmp :=
  repeat match goal with
         | |- context [?a <=? ?b] => destruct (Z.leb_spec a b); try lia
         | |- context [?a <? ?b] => destruct (Z.ltb_spec a b); try lia
         | |- context [?a =? ?b] => destruct (Z.eqb_spec a b); try lia
         end.

Lemma aligned_page (y : Z) : y mod 8 = 0 -> 8 * (y / 8) = y.
Proof. intros Hy. pose proof (Z.div_mod y 8). lia. Qed.

(** ** InvertRect *)

(** One pass over the columns of a page: every column of [x .. x + width]
    is read and written back with the bits of [mask] flipped. *)
Lemma flip_columns_spec (g : Z -> Z) (mask : Z) (fuel : nat) (width : Z)
    (d : glcd) :
  (forall data k, 0 <= k < 8 ->
     Z.testbit (g data) k = xorb (Z.testbit data k) (Z.testbit mask k)) ->
  0 <= Coord_x d -> Coord_y d mod 8 = 0 ->
  0 <= width -> Coord_x d + width <= 254 ->
  (256 < fuel)%nat ->
  exists s',
    while_loop fuel (fun s => fst s <=? width)
      (fun s => Some (u8 (fst s + 1), WriteData (g (ReadData (snd s))) (snd s)))
      (0, d) = Some s' /\
    Coord_y (snd s') = Coord_y d /\ Inverted (snd s') = Inverted d /\
    forall a b,
      pix (snd s') a b =
      if (Coord_x d <=? a) && (a <=? Coord_x d + width)
         && (Coord_y d <=? b) && (b <? Coord_y d + 8)
         && Z.testbit mask (b - Coord_y d)
      then negb (pix d a b) else pix d a b.
Proof.
  intros Hg Hx Hy Hw Hxw Hfuel.
  set (X := Coord_x d) in *. set (Y := Coord_y d) in *.
  destruct (while_loop_rule
    (fun s : Z * glcd =>
       0 <= fst s <= width + 1 /\ Coord_x (snd s) = X + fst s /\
       Coord_y (snd s) = Y /\ Inverted (snd s) = Inverted d /\
       forall a b,
         pix (snd s) a b =
         if (X <=? a) && (a <? X + fst s) && (Y <=? b) && (b <? Y + 8)
            && Z.testbit mask (b - Y)
         then negb (pix d a b) else pix d a b)
    (fun s => Z.to_nat (width + 1 - fst s))
    (fun s => fst s <=? width)
    (fun s => Some (u8 (fst s + 1), WriteData (g (ReadData (snd s))) (snd s))))
    with (fuel := fuel) (s := (0, d))
    as (s' & Hs' & (Hi & _ & Hy' & Hinv & Hpix) & Hc).
  - intros [i di] (Hi & Hcx & Hcy & Hinv & Hpix) Hc.
    cbn [fst snd] in *. apply Z.leb_le in Hc.
    eexists. split; [reflexivity|]. cbn [fst snd].
    rewrite (u8_small (i + 1)) by lia.
    split; [|lia].
    + split; [lia|]. split; [simpl; rewrite Hcx; rewrite u8_small; lia|].
      split; [simpl; exact Hcy|]. split; [simpl; exact Hinv|].
      intros a b. unfold WriteData, ReadData. cbn [pix].
      rewrite Hcx, Hcy, Hy, aligned_page by exact Hy. cbn [Z.eqb].
      destruct ((a =? X + i) && (Y <=? b) && (b <? Y + 8)) eqn:Hhere.
      * apply andb_prop in Hhere. destruct Hhere as [Hhere Hb2].
        apply andb_prop in Hhere. destruct Hhere as [Ha Hb1].
        apply Z.eqb_eq in Ha. apply Z.leb_le in Hb1. apply Z.ltb_lt in Hb2.
        subst a.
        rewrite Hg, page_byte_testbit by lia.
        replace (Y + (b - Y)) with b by lia.
        rewrite Hpix.
        destruct (Z.testbit mask (b - Y)); zcmp; simpl;
          destruct (pix d (X + i) b); reflexivity.
      * rewrite Hpix.
        destruct (Z.testbit mask (b - Y)); revert Hhere; zcmp; simpl;
          intros; try reflexivity; try discriminate.
  - cbn [fst snd]. split; [lia|]. split; [lia|]. split; [reflexivity|].
    split; [reflexivity|]. intros a b.
    destruct (Z.leb_spec X a), (Z.ltb_spec a (X + 0)); try lia; reflexivity.
  - cbn [fst]. lia.
  - exists s'. split; [exact Hs'|]. split; [exact Hy'|]. split; [exact Hinv|].
    intros a b. rewrite Hpix. apply Z.leb_gt in Hc.
    assert (fst s' = width + 1) as -> by lia.
    destruct (Z.testbit mask (b - Y)); zcmp; reflexivity.
Qed.

Lemma while_loop_exit {S : Type} (fuel : nat) (cond : S -> bool)
    (body : S -> option S) (s : S) :
  cond s = false -> (0 < fuel)%nat -> while_loop fuel cond body s = Some s.
Proof.
  intros Hc Hfuel. destruct fuel as [|fuel]; [lia|]. simpl. rewrite Hc. reflexivity.
Qed.

Lemma InvertRect_fractional_spec (fuel : nat) (width mask : Z) (d : glcd) :
  0 <= Coord_x d -> Coord_y d mod 8 = 0 ->
  0 <= width -> Coord_x d + width <= 254 ->
  (256 < fuel)%nat ->
  exists d',
    InvertRect_fractional fuel width mask d = Some d' /\
    Inverted d' = Inverted d /\
    forall a b,
      pix d' a b =
      if (Coord_x d <=? a) && (a <=? Coord_x d + width)
         && (Coord_y d <=? b) && (b <? Coord_y d + 8)
         && Z.testbit mask (b - Coord_y d)
      then negb (pix d a b) else pix d a b.
Proof.
  intros Hx Hy Hw Hxw Hfuel.
  destruct (flip_columns_spec
              (fun data => u8 (Z.lor (Z.land (u8 (Z.lnot data)) mask)
                                     (Z.land data (Z.lnot mask))))
              mask fuel width d) as (s' & Hs' & _ & Hinv & Hpix); try assumption.
  - intros data k Hk. apply flip_masked_testbit. exact Hk.
  - exists (snd s'). unfold InvertRect_fractional.
    cbv zeta. rewrite Hs'. simpl. auto.
Qed.

Lemma InvertRect_full_spec (fuel : nat) (width : Z) (d : glcd) :
  0 <= Coord_x d -> Coord_y d mod 8 = 0 ->
  0 <= width -> Coord_x d + width <= 254 ->
  (256 < fuel)%nat ->
  exists d',
    InvertRect_full fuel width d = Some d' /\
    Inverted d' = Inverted d /\
    forall a b,
      pix d' a b =
      if (Coord_x d <=? a) && (a <=? Coord_x d + width)
         && (Coord_y d <=? b) && (b <? Coord_y d + 8)
      then negb (pix d a b) else pix d a b.
Proof.
  intros Hx Hy Hw Hxw Hfuel.
  destruct (flip_columns_spec (fun data => u8 (Z.lnot data)) 255 fuel width d)
    as (s' & Hs' & _ & Hinv & Hpix); try assumption.
  - intros data k Hk. rewrite flip_full_testbit by exact Hk.
    f_equal. byte_index k; reflexivity.
  - exists (snd s'). unfold InvertRect_full.
    cbv zeta. rewrite Hs'. simpl. split; [reflexivity|]. split; [exact Hinv|].
    intros a b. rewrite Hpix.
    destruct ((Coord_x d <=? a) && (a <=? Coord_x d + width)
              && (Coord_y d <=? b) && (b <? Coord_y d + 8)) eqn:Hin;
      [|reflexivity].
    apply andb_prop in Hin. destruct Hin as [Hin Hb2].
    apply andb_prop in Hin. destruct Hin as [_ Hb1].
    apply Z.leb_le in Hb1. apply Z.ltb_lt in Hb2.
    assert (Hk : 0 <= b - Coord_y d < 8) by lia.
    revert Hk. generalize (b - Coord_y d). intros k Hk.
    byte_index k; reflexivity.
Qed.

(** The three masks of [InvertRect]. *)
Lemma mask_top_short (po hh k : Z) :
  0 <= po < 8 -> 1 <= hh -> hh < 8 - po -> 0 <= k < 8 ->
  Z.testbit (u8 (Z.shiftl (u8 (Z.shiftr 255 (8 - hh))) po)) k
  = (po <=? k) && (k <? po + hh).
Proof.
  intros Hpo Hh1 Hh2 Hk.
  byte_index po; byte_index hh; try lia; byte_index k; reflexivity.
Qed.

Lemma mask_top_long (po k : Z) :
  0 <= po < 8 -> 0 <= k < 8 ->
  Z.testbit (u8 (Z.shiftl 255 po)) k = (po <=? k).
Proof.
  intros Hpo Hk. byte_index po; byte_index k; reflexivity.
Qed.

Lemma mask_bottom (r k : Z) :
  1 <= r < 8 -> 0 <= k < 8 ->
  Z.testbit (u8 (Z.lnot (Z.shiftl 255 r))) k = (k <? r).
Proof.
  intros Hr Hk. byte_index r; try lia; byte_index k; reflexivity.
Qed.

Lemma InvertRect_spec (fuel : nat) (x y width height : Z) (d : glcd) :
  0 <= x -> 0 <= y -> 0 <= width -> 0 <= height ->
  x + width <= 254 -> y + height <= 254 -> (256 < fuel)%nat ->
  exists d',
    InvertRect fuel x y width height d = Some d' /\
    Inverted d' = Inverted d /\
    forall a b,
      pix d' a b =
      if (x <=? a) && (a <=? x + width) && (y <=? b) && (b <=? y + height)
      then negb (pix d a b) else pix d a b.
Proof.
  intros Hx Hy Hw Hh Hxw Hyh Hfuel.
  unfold InvertRect.
  rewrite (u8_small (height + 1)) by lia.
  pose proof (Z.mod_pos_bound y 8 ltac:(lia)) as Hpo.
  assert (Hy0 : (y - y mod 8) mod 8 = 0).
  { pose proof (Z.div_mod y 8 ltac:(lia)) as Hdm.
    replace (y - y mod 8) with (y / 8 * 8) by lia. apply Z.mod_mul. lia. }
  assert (Hpoy : y mod 8 <= y) by (apply Z.mod_le; lia).
  revert Hpo Hy0 Hpoy. generalize (y mod 8). intros po Hpo Hy0 Hpoy.
  rewrite (u8_small (y - po)) by lia.
  destruct (Z.ltb_spec (height + 1) (8 - po)) as [Hshort | Hlong].
  - cbv beta iota zeta.
    destruct (InvertRect_fractional_spec fuel width
                (u8 (Z.shiftl (u8 (Z.shiftr 255 (8 - (height + 1)))) po))
                (GotoXY x (y - po) d)) as (d1 & Hd1 & Hinv1 & Hpix1);
      cbn [GotoXY Coord_x Coord_y]; try assumption.
    rewrite Hd1. cbn [bind].
    cbn [GotoXY Coord_x Coord_y pix Inverted] in Hinv1, Hpix1.
    rewrite while_loop_exit; [| apply Z.leb_gt; lia | lia].
    cbn [bind]. cbv beta iota.
    rewrite (proj2 (Z.ltb_ge (height + 1) (height + 1))) by lia.
    exists d1. split; [reflexivity|]. split; [exact Hinv1|].
    intros a b. rewrite Hpix1.
    destruct (Z.leb_spec (y - po) b), (Z.ltb_spec b (y - po + 8));
      try rewrite mask_top_short by lia; zcmp; reflexivity.
  - cbv beta iota zeta.
    destruct (InvertRect_fractional_spec fuel width (u8 (Z.shiftl 255 po))
                (GotoXY x (y - po) d)) as (d1 & Hd1 & Hinv1 & Hpix1);
      cbn [GotoXY Coord_x Coord_y]; try assumption.
    rewrite Hd1. cbn [bind].
    cbn [GotoXY Coord_x Coord_y pix Inverted] in Hinv1, Hpix1.
    match goal with
    | |- context [while_loop fuel ?cnd ?bdy ?st] =>
        destruct (while_loop_rule
          (fun s : Z * Z * glcd =>
             8 - po <= fst (fst s) <= height + 1 /\
             snd (fst s) + 8 = y + fst (fst s) /\
             snd (fst s) mod 8 = 0 /\
             Inverted (snd s) = Inverted d /\
             forall a b,
               pix (snd s) a b =
               if (x <=? a) && (a <=? x + width)
                  && (y <=? b) && (b <? y + fst (fst s))
               then negb (pix d a b) else pix d a b)
          (fun s => Z.to_nat (height + 1 - fst (fst s))) cnd bdy)
          with (fuel := fuel) (s := st)
          as ([[hh yy] dd] & Hs' & (Hhh & Hyy & Hyy8 & Hinv & Hpix) & Hc)
    end.
    + intros [[hh yy] dd] (Hhh & Hyy & Hyy8 & Hinv & Hpix) Hc.
      cbn [fst snd] in *. apply Z.leb_le in Hc.
      rewrite (u8_small (yy + 8)), (u8_small (hh + 8)) by lia.
      destruct (InvertRect_full_spec fuel width (GotoXY x (yy + 8) dd))
        as (d2 & Hd2 & Hinv2 & Hpix2); cbn [GotoXY Coord_x Coord_y];
        try assumption.
      { rewrite <- (Z_mod_plus_full yy 1 8) in Hyy8. exact Hyy8. }
      rewrite Hd2. cbn [bind]. eexists. split; [reflexivity|].
      cbn [fst snd]. cbn [GotoXY Coord_x Coord_y pix Inverted] in Hinv2, Hpix2.
      split; [|lia].
      split; [lia|]. split; [lia|].
      split; [rewrite <- (Z_mod_plus_full yy 1 8) in Hyy8; exact Hyy8|].
      split; [congruence|].
      intros a b. rewrite Hpix2, Hpix. zcmp; destruct (pix d a b); reflexivity.
    + cbn [fst snd]. split; [lia|]. split; [lia|]. split; [exact Hy0|].
      split; [exact Hinv1|].
      intros a b. rewrite Hpix1.
      destruct (Z.leb_spec (y - po) b), (Z.ltb_spec b (y - po + 8));
        try rewrite mask_top_long by lia; zcmp; reflexivity.
    + cbn [fst]. lia.
    + rewrite Hs'. cbn [bind fst snd] in *. cbv beta iota.
      apply Z.leb_gt in Hc.
      destruct (Z.ltb_spec hh (height + 1)) as [Hbot | Hdone].
      * rewrite (u8_small (yy + 8)) by lia.
        destruct (InvertRect_fractional_spec fuel width
                    (u8 (Z.lnot (Z.shiftl 255 (height + 1 - hh))))
                    (GotoXY x (yy + 8) dd)) as (d3 & Hd3 & Hinv3 & Hpix3);
          cbn [GotoXY Coord_x Coord_y]; try assumption.
        { rewrite <- (Z_mod_plus_full yy 1 8) in Hyy8. exact Hyy8. }
        cbn [GotoXY Coord_x Coord_y pix Inverted] in Hinv3, Hpix3.
        exists d3. split; [exact Hd3|]. split; [congruence|].
        intros a b. rewrite Hpix3, Hpix.
        destruct (Z.leb_spec (yy + 8) b), (Z.ltb_spec b (yy + 8 + 8));
          try rewrite mask_bottom by lia; zcmp; reflexivity.
      * exists dd. split; [reflexivity|]. split; [exact Hinv|].
        intros a b. rewrite Hpix. zcmp; reflexivity.
Qed.

(** C1.  On a canvas whose sides fit the [uint8_t] coordinates, for every
    region [x, y, w, h] with [x + w < WIDTH] and [y + h < HEIGHT] and every
    pixel memory, [InvertRect] returns, flips the pixels of the columns
    [x .. x + w] and rows [y .. y + h] and no other, and applied a second
    time returns a pixel memory equal to the first one at every pixel:
    whether the region lies in one page, spans full pages, or has partial
    pages at its top or bottom. *)
Theorem InvertRect_involution (W H : Z) (fuel : nat) (x y w h : Z) (d : glcd) :
  W <= 255 -> H <= 255 ->
  0 <= x -> 0 <= y -> 0 <= w -> 0 <= h -> x + w < W -> y + h < H ->
  (256 < fuel)%nat ->
  exists d1 d2,
    InvertRect fuel x y w h d = Some d1 /\
    InvertRect fuel x y w h d1 = Some d2 /\
    (forall a b,
       pix d1 a b =
       if (x <=? a) && (a <=? x + w) && (y <=? b) && (b <=? y + h)
       then negb (pix d a b) else pix d a b) /\
    (forall a b, pix d2 a b = pix d a b).
Proof.
  intros HW HH Hx Hy Hw Hh Hxw Hyh Hfuel.
  destruct (InvertRect_spec fuel x y w h d) as (d1 & Hd1 & _ & Hpix1); try lia.
  destruct (InvertRect_spec fuel x y w h d1) as (d2 & Hd2 & _ & Hpix2); try lia.
  exists d1, d2. split; [exact Hd1|]. split; [exact Hd2|]. split; [exact Hpix1|].
  intros a b. rewrite Hpix2, Hpix1.
  destruct ((x <=? a) && (a <=? x + w) && (y <=? b) && (b <=? y + h));
    [apply negb_involutive | reflexivity].
Qed.

Lemma InvertRect_involution_witness :
  exists d1 d2,
    InvertRect 300 5 3 20 10 blank = Some d1 /\
    InvertRect 300 5 3 20 10 d1 = Some d2 /\
    (forall a b,
       pix d1 a b =
       if (5 <=? a) && (a <=? 5 + 20) && (3 <=? b) && (b <=? 3 + 10)
       then negb (pix blank a b) else pix blank a b) /\
    (forall a b, pix d2 a b = pix blank a b).
Proof. apply (InvertRect_involution 128 64 300 5 3 20 10 blank); lia. Defined.

(** ** SetDisplayMode *)

(** C6.  [SetDisplayMode v] on a device whose stored flag is [v] already
    returns the device as it is: pixel memory, cursor and flag.  On a device
    whose flag differs it runs [InvertRect (0, 0, WIDTH-1, HEIGHT-1)], which
    flips every pixel of the canvas and no other, and stores [v]. *)
Theorem SetDisplayMode_spec (W H : Z) (fuel : nat) (v : Z) (d : glcd) :
  0 < W <= 255 -> 0 < H <= 255 -> (256 < fuel)%nat ->
  (Inverted d = v -> SetDisplayMode W H fuel v d = Some d) /\
  (Inverted d <> v ->
   exists d1,
     InvertRect fuel 0 0 (W - 1) (H - 1) d = Some d1 /\
     SetDisplayMode W H fuel v d =
       Some {| pix := pix d1; Coord_x := Coord_x d1; Coord_y := Coord_y d1;
               Inverted := v |} /\
     forall a b,
       pix d1 a b =
       if (0 <=? a) && (a <? W) && (0 <=? b) && (b <? H)
       then negb (pix d a b) else pix d a b).
Proof.
  intros HW HH Hfuel. unfold SetDisplayMode. split.
  - intros Hv. rewrite (proj2 (Z.eqb_eq _ _) Hv). reflexivity.
  - intros Hv. rewrite (proj2 (Z.eqb_neq _ _) Hv). cbn [negb].
    rewrite (u8_small (W - 1)), (u8_small (H - 1)) by lia.
    destruct (InvertRect_spec fuel 0 0 (W - 1) (H - 1) d)
      as (d1 & Hd1 & _ & Hpix1); try lia.
    exists d1. rewrite Hd1. split; [reflexivity|]. split; [reflexivity|].
    intros a b. rewrite Hpix1. zcmp; reflexivity.
Qed.

Lemma SetDisplayMode_spec_witness :
  SetDisplayMode 128 64 300 0 blank = Some blank /\
  exists d1,
    InvertRect 300 0 0 (128 - 1) (64 - 1) blank = Some d1 /\
    SetDisplayMode 128 64 300 1 blank =
      Some {| pix := pix d1; Coord_x := Coord_x d1; Coord_y := Coord_y d1;
              Inverted := 1 |} /\
    forall a b,
      pix d1 a b =
      if (0 <=? a) && (a <? 128) && (0 <=? b) && (b <? 64)
      then negb (pix blank a b) else pix blank a b.
Proof.
  split.
  - apply (SetDisplayMode_spec 128 64 300 0 blank); [lia | lia | lia | reflexivity].
  - apply (SetDisplayMode_spec 128 64 300 1 blank); [lia | lia | lia | discriminate].
Defined.

(** ** DrawLine *)

(** C2.  For endpoints within the canvas, [DrawLine] from the first to the
    second and [DrawLine] from the second to the first both return, and
    return the same device: from every pixel memory they reach the same
    pixel memory, so they set the same pixels. *)
Theorem DrawLine_symmetric (W H : Z) (fuel : nat) (x1 y1 x2 y2 color : Z)
    (d : glcd) :
  W <= 255 -> H <= 255 ->
  0 <= x1 < W -> 0 <= y1 < H -> 0 <= x2 < W -> 0 <= y2 < H ->
  (256 < fuel)%nat ->
  exists d',
    DrawLine W H fuel x1 y1 x2 y2 color d = Some d' /\
    DrawLine W H fuel x2 y2 x1 y1 color d = Some d'.
Proof.
  intros HW HH Hx1 Hy1 Hx2 Hy2 Hfuel.
  destruct (DrawLine_total W H fuel x1 y1 x2 y2 color d) as (d' & Hd'); try lia.
  exists d'. split; [exact Hd'|]. rewrite DrawLine_comm. exact Hd'.
Qed.

Lemma DrawLine_symmetric_witness :
  exists d',
    DrawLine 128 64 300 3 5 100 60 BLACK blank = Some d' /\
    DrawLine 128 64 300 100 60 3 5 BLACK blank = Some d'.
Proof. apply (DrawLine_symmetric 128 64 300 3 5 100 60 BLACK blank); lia. Defined.


(** ** ClearPage and ClearScreen *)

Lemma u8_succ (a : Z) : u8 (u8 a + 1) = u8 (a + 1).
Proof. unfold u8. apply Z.add_mod_idemp_l. lia. Qed.

Lemma u8_times_8_aligned (k : Z) : u8 (k * 8) mod 8 = 0.
Proof.
  unfold u8. rewrite (Z.mod_eq (k * 8) 256) by lia.
  replace (k * 8 - 256 * (k * 8 / 256)) with ((k - 32 * (k * 8 / 256)) * 8) by lia.
  apply Z.mod_mul. lia.
Qed.

(** The loop of [ClearPage]: [n] bytes written from the cursor on. *)
Lemma ClearPage_loop_spec (fuel : nat) (n color : Z) (d : glcd) :
  0 <= Coord_x d < 256 -> Coord_y d mod 8 = 0 ->
  0 <= n < 256 -> Coord_x d + n <= 256 ->
  (256 < fuel)%nat ->
  exists s',
    while_loop fuel (fun s => negb (fst s =? 0))
      (fun s => Some (u8 (fst s - 1), WriteData color (snd s))) (n, d) = Some s' /\
    Inverted (snd s') = Inverted d /\
    forall a b,
      pix (snd s') a b =
      if (Coord_x d <=? a) && (a <? Coord_x d + n)
         && (Coord_y d <=? b) && (b <? Coord_y d + 8)
      then Z.testbit color (b - Coord_y d) else pix d a b.
Proof.
  intros Hx Hy Hn Hxn Hfuel.
  set (X := Coord_x d) in *. set (Y := Coord_y d) in *.
  destruct (while_loop_rule
    (fun s : Z * glcd =>
       0 <= fst s <= n /\ Coord_x (snd s) = u8 (X + (n - fst s)) /\
       Coord_y (snd s) = Y /\ Inverted (snd s) = Inverted d /\
       forall a b,
         pix (snd s) a b =
         if (X <=? a) && (a <? X + (n - fst s)) && (Y <=? b) && (b <? Y + 8)
         then Z.testbit color (b - Y) else pix d a b)
    (fun s => Z.to_nat (fst s))
    (fun s => negb (fst s =? 0))
    (fun s => Some (u8 (fst s - 1), WriteData color (snd s))))
    with (fuel := fuel) (s := (n, d))
    as (s' & Hs' & (Hi & _ & _ & Hinv & Hpix) & Hc).
  - intros [len di] (Hi & Hcx & Hcy & Hinv & Hpix) Hc.
    cbn [fst snd] in *. apply negb_true_iff, Z.eqb_neq in Hc.
    eexists. split; [reflexivity|]. cbn [fst snd].
    rewrite (u8_small (len - 1)) by lia.
    split; [|lia].
    split; [lia|].
    split; [cbn [WriteData Coord_x]; rewrite Hcx, u8_succ; f_equal; lia|].
    split; [exact Hcy|]. split; [exact Hinv|].
    intros a b. unfold WriteData. cbn [pix].
    rewrite Hcx, Hcy, Hy, (u8_small (X + (n - len))) by lia. cbn [Z.eqb].
    rewrite Hpix. zcmp; reflexivity.
  - cbn [fst snd]. split; [lia|]. split.
    + replace (X + (n - n)) with X by lia. symmetry. apply u8_small.
      subst X. lia.
    + split; [reflexivity|]. split; [reflexivity|].
      intros a b. zcmp; reflexivity.
  - cbn [fst]. lia.
  - exists s'. split; [exact Hs'|]. split; [exact Hinv|].
    intros a b. rewrite Hpix.
    apply negb_false_iff, Z.eqb_eq in Hc. rewrite Hc.
    zcmp; reflexivity.
Qed.

Lemma ClearPage_spec (W : Z) (fuel : nat) (page startX length color : Z)
    (d : glcd) :
  W <= 255 -> 0 <= startX < W -> 0 <= length < 256 ->
  (256 < fuel)%nat ->
  exists d',
    ClearPage W fuel page startX length color d = Some d' /\
    Inverted d' = Inverted d /\
    forall a b,
      pix d' a b =
      if (startX <=? a) && (a <? startX + Z.min length (W - startX))
         && (u8 (page * 8) <=? b) && (b <? u8 (page * 8) + 8)
      then Z.testbit color (b - u8 (page * 8)) else pix d a b.
Proof.
  intros HW Hs Hl Hfuel. unfold ClearPage.
  assert (Hclamp : (if startX + length >? W then u8 (W - startX) else length)
                   = Z.min length (W - startX)).
  { destruct (Z.gtb_spec (startX + length) W).
    - rewrite u8_small by lia. lia.
    - lia. }
  rewrite Hclamp.
  destruct (ClearPage_loop_spec fuel (Z.min length (W - startX)) color
              (GotoXY startX (u8 (page * 8)) d))
    as (s' & Hs' & Hinv & Hpix); cbn [GotoXY Coord_x Coord_y]; try lia.
  - apply u8_times_8_aligned.
  - rewrite Hs'. cbn [bind]. exists (snd s'). split; [reflexivity|].
    split; [exact Hinv|]. exact Hpix.
Qed.

(** C8.  For every page, every [startX < WIDTH] and every length,
    [ClearPage] returns and has written the color byte to the
    [min (length, WIDTH - startX)] columns from [startX] on of that page and
    to nothing else: no column from [WIDTH] on is written. *)
Theorem ClearPage_clamps_length (W : Z) (fuel : nat)
    (page startX length color : Z) (d : glcd) :
  W <= 255 -> 0 <= page < 256 -> 0 <= startX < W -> 0 <= length < 256 ->
  (256 < fuel)%nat ->
  exists d',
    ClearPage W fuel page startX length color d = Some d' /\
    (forall a b,
       pix d' a b =
       if (startX <=? a) && (a <? startX + Z.min length (W - startX))
          && (u8 (page * 8) <=? b) && (b <? u8 (page * 8) + 8)
       then Z.testbit color (b - u8 (page * 8)) else pix d a b) /\
    (forall a b, W <= a -> pix d' a b = pix d a b).
Proof.
  intros HW Hp Hs Hl Hfuel.
  destruct (ClearPage_spec W fuel page startX length color d)
    as (d' & Hd' & _ & Hpix); try lia.
  exists d'. split; [exact Hd'|]. split; [exact Hpix|].
  intros a b Ha. rewrite Hpix.
  destruct (Z.ltb_spec a (startX + Z.min length (W - startX))); [lia|].
  rewrite andb_false_r. reflexivity.
Qed.

Lemma ClearPage_clamps_length_witness :
  exists d',
    ClearPage 128 300 2 100 50 BLACK blank = Some d' /\
    (forall a b,
       pix d' a b =
       if (100 <=? a) && (a <? 100 + Z.min 50 (128 - 100))
          && (u8 (2 * 8) <=? b) && (b <? u8 (2 * 8) + 8)
       then Z.testbit BLACK (b - u8 (2 * 8)) else pix blank a b) /\
    (forall a b, 128 <= a -> pix d' a b = pix blank a b).
Proof. apply (ClearPage_clamps_length 128 300 2 100 50 BLACK blank); lia. Defined.

Lemma row_in_page (b page : Z) :
  page * 8 <= b < page * 8 + 8 -> b - page * 8 = b mod 8.
Proof.
  intros Hb. symmetry.
  replace b with (b - page * 8 + page * 8) at 1 by lia.
  rewrite Z_mod_plus_full. apply Z.mod_small. lia.
Qed.

(** [ClearScreen] writes the pages 0 to 7, the rows 0 to 63, whatever the
    height of the canvas. *)
Lemma ClearScreen_spec (W : Z) (fuel : nat) (color : Z) (d : glcd) :
  0 < W <= 255 -> (256 < fuel)%nat ->
  exists d',
    ClearScreen W fuel color d = Some d' /\
    forall a b,
      pix d' a b =
      if (0 <=? a) && (a <? W) && (0 <=? b) && (b <? 64)
      then Z.testbit color (b mod 8) else pix d a b.
Proof.
  intros HW Hfuel. unfold ClearScreen.
  match goal with
  | |- context [while_loop fuel ?cnd ?bdy ?st] =>
      destruct (while_loop_rule
        (fun s : Z * glcd =>
           0 <= fst s <= 8 /\
           forall a b,
             pix (snd s) a b =
             if (0 <=? a) && (a <? W) && (0 <=? b) && (b <? fst s * 8)
             then Z.testbit color (b mod 8) else pix d a b)
        (fun s => Z.to_nat (8 - fst s)) cnd bdy)
        with (fuel := fuel) (s := st)
        as ([page dd] & Hs' & (Hpage & Hpix) & Hc)
  end.
  - intros [page dd] (Hpage & Hpix) Hc. cbn [fst snd] in *.
    apply Z.ltb_lt in Hc. unfold ClearPage_row.
    destruct (ClearPage_spec W fuel page 0 (u8 W) color dd)
      as (d1 & Hd1 & _ & Hpix1); try lia.
    { rewrite u8_small; lia. }
    rewrite Hd1. cbn [bind]. eexists. split; [reflexivity|].
    cbn [fst snd]. rewrite (u8_small (page + 1)) by lia.
    split; [|lia]. split; [lia|].
    intros a b. rewrite Hpix1, Hpix.
    rewrite (u8_small W), (u8_small (page * 8)) by lia.
    destruct (Z.leb_spec (page * 8) b), (Z.ltb_spec b (page * 8 + 8));
      try rewrite row_in_page by lia; zcmp; reflexivity.
  - cbn [fst snd]. split; [lia|]. intros a b. zcmp; reflexivity.
  - cbn [fst]. lia.
  - rewrite Hs'. cbn [bind fst snd] in *. apply Z.ltb_ge in Hc.
    exists dd. split; [reflexivity|]. intros a b. rewrite Hpix.
    assert (page = 8) as -> by lia. reflexivity.
Qed.

(** On a canvas of 64 rows, its eight pages, [ClearScreen] with [BLACK] or
    [WHITE] sets every pixel of the canvas to the color. *)
Lemma ClearScreen_height_64 (W : Z) (fuel : nat) (color : Z) (d : glcd) :
  0 < W <= 255 -> color = BLACK \/ color = WHITE -> (256 < fuel)%nat ->
  exists d',
    ClearScreen W fuel color d = Some d' /\
    forall a b, 0 <= a < W -> 0 <= b < 64 -> pix d' a b = (color =? BLACK).
Proof.
  intros HW Hcolor Hfuel.
  destruct (ClearScreen_spec W fuel color d) as (d' & Hd' & Hpix); try lia.
  exists d'. split; [exact Hd'|].
  intros a b Ha Hb. rewrite Hpix.
  destruct (Z.leb_spec 0 a), (Z.ltb_spec a W), (Z.leb_spec 0 b),
    (Z.ltb_spec b 64); try lia.
  cbn [andb].
  pose proof (Z.mod_pos_bound b 8 ltac:(lia)) as Hk.
  revert Hk. generalize (b mod 8). intros k Hk.
  destruct Hcolor as [-> | ->]; byte_index k; reflexivity.
Qed.

(** C4, on a canvas of 128 columns and 128 rows (sixteen pages).
    [ClearScreen BLACK] on the blank canvas returns a canvas whose rows 0 to
    63 are black and whose pixel [(0, 64)], a pixel of the canvas, is still
    white: the loop runs over the pages 0 to 7 and not over the pages 0 to
    [DISPLAY_HEIGHT / 8 - 1]. *)
Theorem ClearScreen_first_eight_pages_only :
  128 mod 8 = 0 /\ 0 <= 64 < 128 /\
  exists d',
    ClearScreen 128 300 BLACK blank = Some d' /\
    (forall a b, 0 <= a < 128 -> 0 <= b < 64 -> pix d' a b = true) /\
    pix d' 0 64 = false.
Proof.
  split; [reflexivity|]. split; [lia|].
  destruct (ClearScreen_spec 128 300 BLACK blank) as (d' & Hd' & Hpix); try lia.
  exists d'. split; [exact Hd'|]. split.
  - intros a b Ha Hb. rewrite Hpix.
    destruct (Z.leb_spec 0 a), (Z.ltb_spec a 128), (Z.leb_spec 0 b),
      (Z.ltb_spec b 64); try lia.
    cbn [andb].
    pose proof (Z.mod_pos_bound b 8 ltac:(lia)) as Hk.
    revert Hk. generalize (b mod 8). intros k Hk.
    byte_index k; reflexivity.
  - rewrite Hpix. reflexivity.
Qed.

(** ** DrawRect and FillRect *)

(** C3.  For a region within the canvas, [FillRect] sets the pixels of the
    closed box of the columns [x .. x + w] and the rows [y .. y + h], and
    [DrawRect] sets the outline of that box; no other pixel changes.  Both
    sets have the same bounding box, from [(x, y)] to [(x + w, y + h)]:
    [w + 1] columns by [h + 1] rows. *)
Theorem DrawRect_FillRect_same_box (W H x y w h color : Z) (d : glcd) :
  W <= 255 -> H <= 255 ->
  0 <= x -> 0 <= y -> 0 <= w -> 0 <= h -> x + w < W -> y + h < H ->
  (forall a b,
     pix (FillRect x y w h color d) a b =
     if in_box x y w h a b then color =? BLACK else pix d a b) /\
  (forall a b,
     pix (DrawRect x y w h color d) a b =
     if on_outline x y w h a b then color =? BLACK else pix d a b) /\
  bounding_box (in_box x y w h) x y (x + w) (y + h) /\
  bounding_box (on_outline x y w h) x y (x + w) (y + h).
Proof.
  intros HW HH Hx Hy Hw Hh Hxw Hyh.
  split; [|split; [|split]].
  - intros a b. unfold FillRect, SetPixels, in_box. cbn [pix].
    rewrite (u8_small (x + w)), (u8_small (y + h)) by lia. reflexivity.
  - intros a b.
    unfold DrawRect, DrawHLine, DrawVLine, SetPixels, on_outline, in_box.
    cbn [pix].
    rewrite (u8_small (x + w)), (u8_small (y + h)) by lia.
    zcmp; reflexivity.
  - unfold bounding_box, in_box. split; [|repeat split].
    + intros a b. zcmp; intros; try discriminate; lia.
    + exists y. zcmp; reflexivity.
    + exists y. zcmp; reflexivity.
    + exists x. zcmp; reflexivity.
    + exists x. zcmp; reflexivity.
  - unfold bounding_box, on_outline, in_box. split; [|repeat split].
    + intros a b. zcmp; intros; try discriminate; lia.
    + exists y. zcmp; reflexivity.
    + exists y. zcmp; reflexivity.
    + exists x. zcmp; reflexivity.
    + exists x. zcmp; reflexivity.
Qed.

Lemma DrawRect_FillRect_same_box_witness :
  (forall a b,
     pix (FillRect 10 3 20 12 BLACK blank) a b =
     if in_box 10 3 20 12 a b then BLACK =? BLACK else pix blank a b) /\
  (forall a b,
     pix (DrawRect 10 3 20 12 BLACK blank) a b =
     if on_outline 10 3 20 12 a b then BLACK =? BLACK else pix blank a b) /\
  bounding_box (in_box 10 3 20 12) 10 3 (10 + 20) (3 + 12) /\
  bounding_box (on_outline 10 3 20 12) 10 3 (10 + 20) (3 + 12).
Proof. apply (DrawRect_FillRect_same_box 128 64 10 3 20 12 BLACK blank); lia. Defined.

(** ** DrawBitmap: the page rows that are drawn *)

(** The inner loop: [width] bytes from [p0] on are written from the cursor
    on, as they are for [BLACK] and complemented otherwise. *)
Lemma DrawBitmap_bytes_spec (fuel : nat) (bitmap : list Z)
    (width color p0 : Z) (d : glcd) :
  0 <= Coord_x d -> 0 <= width -> Coord_x d + width <= 255 ->
  (256 < fuel)%nat ->
  exists t,
    while_loop fuel (fun '(i, ptr, d) => i <? width)
      (DrawBitmap_byte bitmap color) (0, p0, d) = Some t /\
    snd (fst t) = p0 + width /\
    Inverted (snd t) = Inverted d /\
    forall a b,
      pix (snd t) a b =
      if (Coord_x d <=? a) && (a <? Coord_x d + width)
         && (Coord_y d <=? b) && (b <? Coord_y d + 8)
      then
        let v := xorb (Z.testbit (ReadPgmData bitmap (p0 + (a - Coord_x d)))
                                 (b - Coord_y d))
                      (negb (color =? BLACK)) in
        if Coord_y d mod 8 =? 0 then v else pix d a b || v
      else pix d a b.
Proof.
  intros Hx Hw Hxw Hfuel.
  set (X := Coord_x d) in *. set (Y := Coord_y d) in *.
  match goal with
  | |- context [while_loop fuel ?cnd ?bdy ?st] =>
      destruct (while_loop_rule
        (fun t : Z * Z * glcd =>
           0 <= fst (fst t) <= width /\ snd (fst t) = p0 + fst (fst t) /\
           Coord_x (snd t) = X + fst (fst t) /\ Coord_y (snd t) = Y /\
           Inverted (snd t) = Inverted d /\
           forall a b,
             pix (snd t) a b =
             if (X <=? a) && (a <? X + fst (fst t)) && (Y <=? b) && (b <? Y + 8)
             then
               let v := xorb (Z.testbit (ReadPgmData bitmap (p0 + (a - X)))
                                        (b - Y))
                             (negb (color =? BLACK)) in
               if Y mod 8 =? 0 then v else pix d a b || v
             else pix d a b)
        (fun t => Z.to_nat (width - fst (fst t))) cnd bdy)
        with (fuel := fuel) (s := st)
        as ([[i ptr] dd] & Ht & (Hi & Hptr & _ & _ & Hinv & Hpix) & Hc)
  end.
  - intros [[i ptr] dd] (Hi & Hptr & Hcx & Hcy & Hinv & Hpix) Hc.
    cbn [fst snd] in *. apply Z.ltb_lt in Hc.
    unfold DrawBitmap_byte. eexists. split; [reflexivity|].
    cbn [fst snd]. rewrite (u8_small (i + 1)) by lia.
    split; [|lia].
    split; [lia|]. split; [lia|].
    split; [destruct (color =? BLACK); cbn [WriteData Coord_x];
            rewrite Hcx, u8_small; lia|].
    split; [destruct (color =? BLACK); exact Hcy|].
    split; [destruct (color =? BLACK); exact Hinv|].
    intros a b. cbv zeta.
    destruct (color =? BLACK); unfold WriteData; cbn [pix negb];
      rewrite Hcx, Hcy, Hpix, Hptr; cbv zeta;
      destruct (Y mod 8 =? 0);
      destruct (Z.eqb_spec a (X + i)) as [-> | Hne];
      destruct (Z.leb_spec Y b), (Z.ltb_spec b (Y + 8)); cbn [andb];
      try rewrite flip_full_testbit by lia;
      try replace (X + i - X) with i by lia;
      zcmp; cbn [negb]; try rewrite xorb_false_r; reflexivity.
  - cbn [fst snd]. split; [lia|]. split; [lia|]. split; [lia|].
    split; [reflexivity|]. split; [reflexivity|].
    intros a b. zcmp; reflexivity.
  - cbn [fst snd]. lia.
  - cbn [fst snd] in *. apply Z.ltb_ge in Hc.
    assert (i = width) by lia. subst i.
    eexists. split; [exact Ht|]. cbn [fst snd].
    split; [exact Hptr|]. split; [exact Hinv|]. exact Hpix.
Qed.

Lemma row_of_page (r j : Z) :
  8 * j <= r < 8 * j + 8 -> r / 8 = j /\ r mod 8 = r - 8 * j.
Proof.
  intros Hr.
  assert (Hq : r / 8 = j) by (symmetry; apply (Z.div_unique r 8 j (r - 8 * j)); lia).
  split; [exact Hq|]. rewrite Z.mod_eq by lia. rewrite Hq. reflexivity.
Qed.

Lemma land_7 (y : Z) : Z.land y 7 = y mod 8.
Proof. change 7 with (Z.ones 3). rewrite Z.land_ones by lia. reflexivity. Qed.

(** The outer loop: the page rows [0 .. height / 8 - 1] are written. *)
Lemma DrawBitmap_rows_spec (fuel : nat) (bitmap : list Z)
    (x y height color : Z) (d : glcd) :
  0 <= x -> 0 <= y -> 0 <= ReadPgmData bitmap 0 -> 0 <= height ->
  x + ReadPgmData bitmap 0 <= 255 -> y + height <= 255 ->
  (256 < fuel)%nat ->
  exists s,
    while_loop fuel (fun '(j, ptr, d) => j <? height / 8)
      (DrawBitmap_row fuel bitmap x y (ReadPgmData bitmap 0) color)
      (0, 2, d) = Some s /\
    Inverted (snd s) = Inverted d /\
    forall a b,
      pix (snd s) a b =
      if (x <=? a) && (a <? x + ReadPgmData bitmap 0)
         && (y <=? b) && (b <? y + 8 * (height / 8))
      then
        if y mod 8 =? 0 then drawn_pixel bitmap color (a - x) (b - y)
        else pix d a b || drawn_pixel bitmap color (a - x) (b - y)
      else pix d a b.
Proof.
  intros Hx Hy Hw Hh Hxw Hyh Hfuel.
  set (width := ReadPgmData bitmap 0) in *.
  assert (Hrows : 0 <= 8 * (height / 8) <= height).
  { pose proof (Z.div_mod height 8 ltac:(lia)).
    pose proof (Z.mod_pos_bound height 8 ltac:(lia)).
    split; [|lia]. apply Z.mul_nonneg_nonneg; [lia|]. apply Z.div_pos; lia. }
  match goal with
  | |- context [while_loop fuel ?cnd ?bdy ?st] =>
      destruct (while_loop_rule
        (fun s : Z * Z * glcd =>
           0 <= fst (fst s) <= height / 8 /\
           snd (fst s) = 2 + fst (fst s) * width /\
           Inverted (snd s) = Inverted d /\
           forall a b,
             pix (snd s) a b =
             if (x <=? a) && (a <? x + width)
                && (y <=? b) && (b <? y + 8 * fst (fst s))
             then
               if y mod 8 =? 0 then drawn_pixel bitmap color (a - x) (b - y)
               else pix d a b || drawn_pixel bitmap color (a - x) (b - y)
             else pix d a b)
        (fun s => Z.to_nat (height / 8 - fst (fst s))) cnd bdy)
        with (fuel := fuel) (s := st)
        as ([[j ptr] dd] & Hs & (Hj & _ & Hinv & Hpix) & Hc)
  end.
  - intros [[j ptr] dd] (Hj & Hptr & Hinv & Hpix) Hc.
    cbn [fst snd] in *. apply Z.ltb_lt in Hc.
    unfold DrawBitmap_row.
    rewrite (u8_small (y + j * 8)), (u8_small (j + 1)) by lia.
    destruct (DrawBitmap_bytes_spec fuel bitmap width color ptr
                (GotoXY x (y + j * 8) dd))
      as ([[i' ptr'] d'] & Ht & Hptr' & Hinv' & Hpix');
      cbn [GotoXY Coord_x Coord_y]; try lia.
    rewrite Ht. cbn [bind fst snd] in *.
    cbn [GotoXY Coord_x Coord_y pix Inverted] in Hinv', Hpix'.
    eexists. split; [reflexivity|]. cbn [fst snd].
    split; [|lia].
    split; [lia|]. split; [lia|]. split; [congruence|].
    intros a b. rewrite Hpix'. cbv zeta.
    replace ((y + j * 8) mod 8) with (y mod 8)
      by (symmetry; apply Z_mod_plus_full).
    rewrite !Hpix.
    destruct (Z.leb_spec (y + j * 8) b), (Z.ltb_spec b (y + j * 8 + 8));
      destruct (Z.leb_spec x a), (Z.ltb_spec a (x + width)); cbn [andb];
      try (zcmp; reflexivity).
    unfold drawn_pixel, bitmap_pixel. fold width.
    destruct (row_of_page (b - y) j) as [Hq Hr]; [lia|].
    rewrite Hq, Hr, Hptr.
    replace (b - y - 8 * j) with (b - (y + j * 8)) by lia.
    zcmp; reflexivity.
  - cbn [fst snd]. split; [split; [lia | apply Z.div_pos; lia]|].
    split; [lia|]. split; [reflexivity|].
    intros a b. zcmp; reflexivity.
  - cbn [fst snd]. pose proof (Z.div_pos height 8 ltac:(lia) ltac:(lia)). lia.
  - cbn [fst snd] in *. apply Z.ltb_ge in Hc.
    assert (j = height / 8) by lia. subst j.
    eexists. split; [exact Hs|]. cbn [fst snd].
    split; [exact Hinv|]. exact Hpix.
Qed.

(** [DrawBitmap] with the footprint within the [uint8_t] coordinates: in
    the rows of the [height / 8] full page rows every pixel of the footprint
    is the bitmap's (complemented when the color is not [BLACK]), whatever
    pixel memory held; the other pixels are the pre-cleared ones or the old
    ones. *)
Lemma DrawBitmap_spec (fuel : nat) (bitmap : list Z) (x y color : Z)
    (d : glcd) :
  0 <= x -> 0 <= y -> 0 <= ReadPgmData bitmap 0 -> 0 <= ReadPgmData bitmap 1 ->
  x + ReadPgmData bitmap 0 <= 255 -> y + ReadPgmData bitmap 1 <= 255 ->
  (256 < fuel)%nat ->
  exists d',
    DrawBitmap fuel bitmap x y color d = Some d' /\
    forall a b,
      pix d' a b =
      if (x <=? a) && (a <? x + ReadPgmData bitmap 0)
         && (y <=? b) && (b <? y + 8 * (ReadPgmData bitmap 1 / 8))
      then drawn_pixel bitmap color (a - x) (b - y)
      else if (negb (y mod 8 =? 0) || negb (ReadPgmData bitmap 1 mod 8 =? 0))
              && in_box x y (ReadPgmData bitmap 0) (ReadPgmData bitmap 1) a b
           then false
           else pix d a b.
Proof.
  intros Hx Hy Hw Hh Hxw Hyh Hfuel.
  unfold DrawBitmap. cbv zeta. change (0 + 1) with 1. change (1 + 1) with 2.
  rewrite !land_7.
  set (width := ReadPgmData bitmap 0) in *.
  set (height := ReadPgmData bitmap 1) in *.
  assert (Hrows : 0 <= 8 * (height / 8) <= height).
  { pose proof (Z.div_mod height 8 ltac:(lia)).
    pose proof (Z.mod_pos_bound height 8 ltac:(lia)).
    split; [|lia]. apply Z.mul_nonneg_nonneg; [lia|]. apply Z.div_pos; lia. }
  match goal with
  | |- context [while_loop fuel _ _ (0, 2, ?d0)] =>
      destruct (DrawBitmap_rows_spec fuel bitmap x y height color d0)
        as ([[j ptr] d'] & Hs & _ & Hpix); try assumption
  end.
  fold width in Hs, Hpix. rewrite Hs. cbn [bind fst snd] in *.
  exists d'. split; [reflexivity|].
  intros a b. rewrite Hpix. unfold in_box.
  destruct (Z.eqb_spec (y mod 8) 0) as [Hal | Hun]; cbn [negb orb].
  - destruct (height mod 8 =? 0); cbn [negb orb andb];
      unfold FillRect, SetPixels; cbn [pix];
      rewrite ?(u8_small (x + width)), ?(u8_small (y + height)) by lia;
      change (WHITE =? BLACK) with false;
      zcmp; reflexivity.
  - unfold FillRect, SetPixels. cbn [pix].
    rewrite (u8_small (x + width)), (u8_small (y + height)) by lia.
    change (WHITE =? BLACK) with false.
    zcmp; reflexivity.
Qed.

(** C10.  For a bitmap whose height byte is below 8, with the box of the
    columns [x .. x + width] and the rows [y .. y + height] within the
    [uint8_t] coordinates, [DrawBitmap] returns without a turn of its
    page-row loop: the result is the same for every choice of data bytes and
    of color.  Pixel memory changes by the pre-clear only, and the pre-clear
    is [FillRect (x, y, width, height, WHITE)]: it turns off the closed box,
    which is one column and one row more than the [width] by [height]
    footprint of the bitmap, and leaves every other pixel as it was.  With
    height 0 there is a pre-clear only when [y] is not a multiple of 8. *)
Theorem DrawBitmap_height_below_8 (fuel : nat) (bitmap : list Z)
    (x y color : Z) (d : glcd) :
  0 <= x -> 0 <= y ->
  0 <= ReadPgmData bitmap 0 -> x + ReadPgmData bitmap 0 <= 255 ->
  0 <= ReadPgmData bitmap 1 < 8 -> y + ReadPgmData bitmap 1 <= 255 ->
  (0 < fuel)%nat ->
  exists d',
    DrawBitmap fuel bitmap x y color d = Some d' /\
    (forall bitmap' color',
       ReadPgmData bitmap' 0 = ReadPgmData bitmap 0 ->
       ReadPgmData bitmap' 1 = ReadPgmData bitmap 1 ->
       DrawBitmap fuel bitmap' x y color' d = Some d') /\
    (forall a b,
       pix d' a b =
       if (negb (ReadPgmData bitmap 1 =? 0) || negb (y mod 8 =? 0))
          && in_box x y (ReadPgmData bitmap 0) (ReadPgmData bitmap 1) a b
       then false else pix d a b) /\
    (ReadPgmData bitmap 1 <> 0 ->
     forall a b,
       pix d' a b =
       if in_box x y (ReadPgmData bitmap 0) (ReadPgmData bitmap 1) a b
       then false else pix d a b).
Proof.
  intros Hx Hy Hw Hxw Hh Hyh Hfuel.
  assert (Hmain : forall bitmap' color',
    ReadPgmData bitmap' 0 = ReadPgmData bitmap 0 ->
    ReadPgmData bitmap' 1 = ReadPgmData bitmap 1 ->
    DrawBitmap fuel bitmap' x y color' d =
    Some (if negb (Z.land y 7 =? 0) || negb (Z.land (ReadPgmData bitmap 1) 7 =? 0)
          then FillRect x y (ReadPgmData bitmap 0) (ReadPgmData bitmap 1) WHITE d
          else d)).
  { intros bitmap' color' Hw' Hh'.
    unfold DrawBitmap. cbv zeta. change (0 + 1) with 1.
    rewrite Hw', Hh'.
    rewrite while_loop_exit; [reflexivity | | exact Hfuel].
    apply Z.ltb_ge. rewrite Z.div_small by lia. lia. }
  assert (Hpix : forall a b,
    pix (if negb (Z.land y 7 =? 0) || negb (Z.land (ReadPgmData bitmap 1) 7 =? 0)
         then FillRect x y (ReadPgmData bitmap 0) (ReadPgmData bitmap 1) WHITE d
         else d) a b =
    if (negb (ReadPgmData bitmap 1 =? 0) || negb (y mod 8 =? 0))
       && in_box x y (ReadPgmData bitmap 0) (ReadPgmData bitmap 1) a b
    then false else pix d a b).
  { intros a b. rewrite !land_7.
    rewrite (Z.mod_small (ReadPgmData bitmap 1) 8) by lia.
    destruct (Z.eqb_spec (y mod 8) 0), (Z.eqb_spec (ReadPgmData bitmap 1) 0);
      cbn [negb orb andb]; try reflexivity;
      unfold FillRect, SetPixels, in_box; cbn [pix];
      rewrite (u8_small (x + ReadPgmData bitmap 0)),
        (u8_small (y + ReadPgmData bitmap 1)) by lia;
      change (WHITE =? BLACK) with false; reflexivity. }
  eexists. split; [apply Hmain; reflexivity|].
  split; [exact Hmain|]. split; [exact Hpix|].
  intros Hnz a b. rewrite Hpix.
  destruct (Z.eqb_spec (ReadPgmData bitmap 1) 0); [contradiction|]. reflexivity.
Qed.

(** A bitmap 4 columns wide and 5 rows high at [(10, 16)] on a canvas with
    every pixel on: the pixels [(14, 16)] and [(10, 21)], next to the
    footprint, are turned off; the pixel [(10, 16)] of the footprint is off
    although the bitmap has it on; the data bytes and the color play no
    part. *)
Lemma DrawBitmap_height_below_8_witness :
  exists d',
    DrawBitmap 300 [4; 5; 255; 255; 255; 255] 10 16 BLACK
      (FillRect 0 0 127 63 BLACK blank) = Some d' /\
    DrawBitmap 300 [4; 5; 0; 0; 0; 0] 10 16 WHITE
      (FillRect 0 0 127 63 BLACK blank) = Some d' /\
    pix (FillRect 0 0 127 63 BLACK blank) 14 16 = true /\
    pix d' 14 16 = false /\ pix d' 10 21 = false /\
    pix d' 10 16 = false /\ pix d' 15 16 = true /\ pix d' 10 22 = true.
Proof.
  destruct (DrawBitmap_height_below_8 300 [4; 5; 255; 255; 255; 255] 10 16
              BLACK (FillRect 0 0 127 63 BLACK blank))
    as (d' & Hd' & Hdata & _ & Hpix);
    try (vm_compute; intuition discriminate); try lia.
  exists d'. split; [exact Hd'|].
  split; [apply Hdata; reflexivity|].
  assert (Hnz : ReadPgmData [4; 5; 255; 255; 255; 255] 1 <> 0)
    by (vm_compute; discriminate).
  split; [reflexivity|].
  rewrite !(Hpix Hnz).
  repeat split; reflexivity.
Defined.

(** C5, at a bitmap one column wide and twelve rows high whose pixels are
    all on (data bytes [0xFF], [0x0F]), drawn in [BLACK] at [(0, 0)] on the
    blank canvas.  The height is not a multiple of 8, so the destination is
    cleared first; then the page-row loop runs [12 / 8 = 1] time.  Row 7 is
    on as the bitmap has it; row 8, on in the bitmap, is off.  And at a
    bitmap four rows high the pixel [(0, 0)] is off after drawing in [BLACK]
    and off after drawing in [WHITE]: it is neither the bitmap's pixel nor
    its complement. *)
Theorem DrawBitmap_drops_partial_page_row :
  bitmap_pixel [1; 12; 255; 15] 0 7 = true /\
  bitmap_pixel [1; 12; 255; 15] 0 8 = true /\
  option_map (fun d' => (pix d' 0 7, pix d' 0 8))
    (DrawBitmap 300 [1; 12; 255; 15] 0 0 BLACK blank) = Some (true, false) /\
  option_map (fun d' => pix d' 0 0)
    (DrawBitmap 300 [1; 4; 15] 0 0 BLACK blank) = Some false /\
  option_map (fun d' => pix d' 0 0)
    (DrawBitmap 300 [1; 4; 15] 0 0 WHITE blank) = Some false.
Proof. repeat split; vm_compute; reflexivity. Qed.

(** ** FillCircle *)

(** The loop of [DrawLine] when [deltay] is 0: the error term never goes
    below zero, the minor coordinate stays, and the dots of a straight
    segment are set. *)
Lemma DrawLine_loop_straight (steep : bool) (deltax ystep color : Z)
    (X1 X2 Y0 E : Z) (fuel : nat) (d : glcd) :
  0 <= X1 <= X2 + 1 -> X2 <= 254 -> 0 <= E < 128 -> (256 < fuel)%nat ->
  exists s',
    while_loop fuel (fun s => ln_x s <=? X2)
      (DrawLine_body steep deltax 0 ystep color) (mkLine X1 Y0 E d) = Some s' /\
    Inverted (ln_dev s') = Inverted d /\
    forall a b,
      pix (ln_dev s') a b =
      if (if steep then (a =? Y0) && (X1 <=? b) && (b <=? X2)
          else (b =? Y0) && (X1 <=? a) && (a <=? X2))
      then color =? BLACK else pix d a b.
Proof.
  intros HX HX2 HE Hfuel.
  destruct (while_loop_rule
    (fun s : line_locals =>
       X1 <= ln_x s <= X2 + 1 /\ ln_y s = Y0 /\ ln_error s = E /\
       Inverted (ln_dev s) = Inverted d /\
       forall a b,
         pix (ln_dev s) a b =
         if (if steep then (a =? Y0) && (X1 <=? b) && (b <? ln_x s)
             else (b =? Y0) && (X1 <=? a) && (a <? ln_x s))
         then color =? BLACK else pix d a b)
    (fun s => Z.to_nat (X2 + 1 - ln_x s))
    (fun s => ln_x s <=? X2)
    (DrawLine_body steep deltax 0 ystep color))
    with (fuel := fuel) (s := mkLine X1 Y0 E d)
    as (s' & Hs' & (Hx & _ & _ & Hinv & Hpix) & Hc).
  - intros [x y e dd] (Hx & Hy & He & Hinv & Hpix) Hc.
    cbn [ln_x ln_y ln_error ln_dev] in *. apply Z.leb_le in Hc. subst y e.
    unfold DrawLine_body. cbn [ln_x ln_y ln_error ln_dev].
    rewrite Z.sub_0_r, (i8_small E) by lia.
    rewrite (proj2 (Z.ltb_ge E 0)) by lia.
    eexists. split; [reflexivity|]. cbn [ln_x ln_y ln_error ln_dev].
    rewrite (u8_small (x + 1)) by lia.
    split; [|lia].
    split; [lia|]. split; [reflexivity|]. split; [reflexivity|].
    split; [destruct steep; exact Hinv|].
    intros a b. destruct steep; unfold SetDot; cbn [pix]; rewrite Hpix;
      zcmp; reflexivity.
  - cbn [ln_x ln_y ln_error ln_dev]. split; [lia|]. split; [reflexivity|].
    split; [reflexivity|]. split; [reflexivity|].
    intros a b. destruct steep; zcmp; reflexivity.
  - cbn [ln_x]. lia.
  - exists s'. split; [exact Hs'|]. split; [exact Hinv|].
    intros a b. rewrite Hpix. apply Z.leb_gt in Hc.
    assert (ln_x s' = X2 + 1) as -> by lia.
    destruct steep; zcmp; reflexivity.
Qed.

(** A vertical line between two rows of a column of the canvas. *)
Lemma DrawLine_vertical_spec (W H : Z) (fuel : nat) (X ya yb color : Z)
    (d : glcd) :
  W <= 255 -> H <= 255 -> 0 <= X < W -> 0 <= ya -> ya <= yb -> yb < H ->
  (256 < fuel)%nat ->
  exists d',
    DrawLine W H fuel X ya X yb color d = Some d' /\
    Inverted d' = Inverted d /\
    forall a b,
      pix d' a b =
      if (a =? X) && (ya <=? b) && (b <=? yb) then color =? BLACK
      else pix d a b.
Proof.
  intros HW HH HX Hya Hyab Hyb Hfuel.
  unfold DrawLine.
  destruct (Z.geb_spec X W); [lia|].
  destruct (Z.geb_spec ya H); [lia|].
  destruct (Z.geb_spec yb H); [lia|].
  assert (HXX : _GLCD_absDiff X X = 0)
    by (unfold _GLCD_absDiff; destruct (Z.gtb_spec X X); lia).
  assert (Hyy : _GLCD_absDiff ya yb = yb - ya)
    by (unfold _GLCD_absDiff; destruct (Z.gtb_spec ya yb); lia).
  rewrite HXX, Hyy.
  destruct (Z.gtb_spec (yb - ya) 0) as [Hst | Hns].
  - cbv beta iota zeta. destruct (Z.gtb_spec ya yb); [lia|].
    cbv beta iota zeta. rewrite HXX.
    change (u8 0) with 0. rewrite (u8_small (yb - ya)) by lia.
    assert (HE : 0 <= (yb - ya) / 2 < 128).
    { split; [apply Z.div_pos; lia | apply Z.div_lt_upper_bound; lia]. }
    rewrite (i8_small ((yb - ya) / 2)) by lia.
    destruct (DrawLine_loop_straight true (yb - ya) (if X <? X then 1 else -1)
                color ya yb X ((yb - ya) / 2) fuel d)
      as (s' & Hs' & Hinv & Hpix); try lia.
    rewrite Hs'. cbn [bind]. exists (ln_dev s').
    split; [reflexivity|]. split; [exact Hinv|]. exact Hpix.
  - assert (yb = ya) by lia. subst yb.
    cbv beta iota zeta. destruct (Z.gtb_spec X X); [lia|].
    cbv beta iota zeta.
    replace (_GLCD_absDiff ya ya) with 0
      by (unfold _GLCD_absDiff; destruct (Z.gtb_spec ya ya); lia).
    rewrite Z.sub_diag. change (u8 0) with 0. change (i8 (0 / 2)) with 0.
    destruct (DrawLine_loop_straight false 0 (if ya <? ya then 1 else -1)
                color X X ya 0 fuel d)
      as (s' & Hs' & Hinv & Hpix); try lia.
    rewrite Hs'. cbn [bind]. exists (ln_dev s').
    split; [reflexivity|]. split; [exact Hinv|].
    intros a b. rewrite Hpix. zcmp; reflexivity.
Qed.

Lemma chords_check_all : forallb chords_check (range 128) = true.
Proof. vm_compute. reflexivity. Qed.

Lemma range_In (n : nat) (z : Z) : 0 <= z < Z.of_nat n -> In z (range n).
Proof.
  intros Hz. unfold range. apply in_map_iff.
  exists (Z.to_nat z). split; [lia|]. apply in_seq. lia.
Qed.

Lemma on_chord_true (dx dy : Z) (c : Z * Z) :
  on_chord dx dy c = true <-> Z.abs dx = fst c /\ Z.abs dy <= snd c.
Proof.
  unfold on_chord. rewrite andb_true_iff, Z.eqb_eq, Z.leb_le. reflexivity.
Qed.

Section Chords.

Variable cs : list (Z * Z).

Hypothesis cs_checked :
  forall c, In c cs ->
    0 <= fst c /\ 0 <= snd c /\
    (fst c = 0 \/ existsb (on_chord (fst c - 1) (snd c)) cs = true) /\
    existsb (on_chord (snd c) (fst c)) cs = true.

(** From a chord, every column before it has a chord at least as high. *)
Lemma chords_down (n : nat) :
  forall c a, In c cs -> 0 <= a <= fst c -> fst c - a <= Z.of_nat n ->
  exists e', In (a, e') cs /\ snd c <= e'.
Proof.
  induction n as [|n IH]; intros [c e] a Hin Ha Hn; cbn [fst snd] in *.
  - assert (a = c) by lia. subst a. exists e. split; [exact Hin | lia].
  - destruct (Z.eq_dec a c) as [-> | Hne].
    + exists e. split; [exact Hin | lia].
    + destruct (cs_checked _ Hin) as (_ & He & [Hc0 | Hprev] & _);
        cbn [fst snd] in *; [lia|].
      apply existsb_exists in Hprev. destruct Hprev as ([c' e'] & Hin' & Hon).
      apply on_chord_true in Hon. cbn [fst snd] in Hon.
      destruct Hon as [Hc' He'].
      rewrite Z.abs_eq in Hc' by lia. subst c'.
      destruct (IH (c - 1, e') a Hin') as (e'' & Hin'' & Hle);
        cbn [fst snd]; try lia.
      exists e''. split; [exact Hin''|]. cbn [fst snd] in Hle. lia.
Qed.

Lemma chords_mirror (dx dy : Z) :
  existsb (on_chord dx dy) cs = true -> existsb (on_chord dy dx) cs = true.
Proof.
  intros Hin. apply existsb_exists in Hin. destruct Hin as ([c e] & Hin & Hon).
  apply on_chord_true in Hon. cbn [fst snd] in Hon. destruct Hon as [Hc He].
  destruct (cs_checked _ Hin) as (Hc0 & He0 & _ & Hmir). cbn [fst snd] in *.
  apply existsb_exists in Hmir. destruct Hmir as ([c2 e2] & Hin2 & Hon2).
  apply on_chord_true in Hon2. cbn [fst snd] in Hon2. destruct Hon2 as [Hc2 He2].
  destruct (chords_down (Z.to_nat c2) (c2, e2) (Z.abs dy) Hin2)
    as (e3 & Hin3 & Hle3); cbn [fst snd] in *; try lia.
  apply existsb_exists. exists (Z.abs dy, e3). split; [exact Hin3|].
  apply on_chord_true. cbn [fst snd]. lia.
Qed.

Lemma chords_diagonal (dx dy : Z) :
  existsb (on_chord dx dy) cs = existsb (on_chord dy dx) cs.
Proof.
  destruct (existsb (on_chord dx dy) cs) eqn:H1.
  - symmetry. apply chords_mirror. exact H1.
  - destruct (existsb (on_chord dy dx) cs) eqn:H2; [|reflexivity].
    apply chords_mirror in H2. congruence.
Qed.

End Chords.

Lemma FillCircle_pixels_diagonal (r dx dy : Z) :
  0 <= r <= 127 -> FillCircle_pixels r dx dy = FillCircle_pixels r dy dx.
Proof.
  intros Hr. unfold FillCircle_pixels. apply chords_diagonal.
  assert (Hck : chords_check r = true).
  { pose proof chords_check_all as Hall. rewrite forallb_forall in Hall.
    apply Hall. apply range_In. lia. }
  unfold chords_check in Hck. cbv zeta in Hck. rewrite forallb_forall in Hck.
  intros c Hin. specialize (Hck c Hin).
  rewrite !andb_true_iff, orb_true_iff, !Z.leb_le, Z.eqb_eq in Hck.
  tauto.
Qed.

Lemma existsb_pointwise {A : Type} (f g : A -> bool) (l : list A) :
  (forall c, f c = g c) -> existsb f l = existsb g l.
Proof.
  intros Hfg. induction l as [|c l IH]; [reflexivity|].
  simpl. rewrite Hfg, IH. reflexivity.
Qed.

Lemma FillCircle_pixels_abs (r dx dy : Z) :
  FillCircle_pixels r dx dy = FillCircle_pixels r (Z.abs dx) (Z.abs dy).
Proof.
  unfold FillCircle_pixels. apply existsb_pointwise. intros c.
  unfold on_chord. rewrite !Z.abs_idemp. reflexivity.
Qed.

Lemma FillCircle_pixels_seed (r dy : Z) :
  - r <= dy <= r -> FillCircle_pixels r 0 dy = true.
Proof.
  intros Hdy. unfold FillCircle_pixels, FillCircle_all_chords.
  cbn [existsb]. apply orb_true_iff. left.
  apply on_chord_true. cbn [fst snd]. lia.
Qed.

Lemma FillCircle_step_xy (s : circle_locals) :
  0 <= fc_x s -> fc_x s < fc_y s -> fc_y s <= 127 ->
  fc_x (FillCircle_step s) = fc_x s + 1 /\
  (fc_y (FillCircle_step s) = fc_y s \/ fc_y (FillCircle_step s) = fc_y s - 1).
Proof.
  intros Hx Hxy Hy. unfold FillCircle_step.
  destruct (fc_f s >=? 0); cbn [fc_x fc_y]; rewrite !u8_small by lia; lia.
Qed.

Lemma chord_lines (x0 y0 c e a b : Z) :
  0 <= c ->
  ((a =? x0 + c) && (y0 - e <=? b) && (b <=? y0 + e))
  || ((a =? x0 - c) && (y0 - e <=? b) && (b <=? y0 + e))
  = on_chord (a - x0) (b - y0) (c, e).
Proof. intros Hc. unfold on_chord. cbn [fst snd]. zcmp; reflexivity. Qed.

(** The loop of [FillCircle] on a disc within the canvas: it ends, and it
    sets the pixels of its chords. *)
Lemma FillCircle_loop_spec (W H : Z) (fuel : nat) (x0 y0 r color : Z) :
  W <= 255 -> H <= 255 ->
  r <= x0 -> x0 + r < W -> r <= y0 -> y0 + r < H -> (256 < fuel)%nat ->
  forall (k n : nat) (s : circle_locals) (d : glcd),
    0 <= fc_x s -> 0 <= fc_y s <= r ->
    (Z.to_nat (fc_y s - fc_x s) < k)%nat ->
    (Z.to_nat (fc_y s - fc_x s) < n)%nat ->
    exists s',
      while_loop k (fun s => fc_x (fst s) <? fc_y (fst s))
        (FillCircle_body W H fuel x0 y0 color) (s, d) = Some s' /\
      Inverted (snd s') = Inverted d /\
      forall a b,
        pix (snd s') a b =
        if existsb (on_chord (a - x0) (b - y0)) (FillCircle_chords n s)
        then color =? BLACK else pix d a b.
Proof.
  intros HW HH Hx0 Hx0r Hy0 Hy0r Hfuel.
  induction k as [|k IH]; intros n s d Hx Hy Hk Hn; [lia|].
  destruct n as [|n]; [lia|].
  cbn [while_loop FillCircle_chords fst snd].
  destruct (Z.ltb_spec (fc_x s) (fc_y s)) as [Hc | Hc].
  - destruct (FillCircle_step_xy s) as (Hx' & Hy'); try lia.
    unfold FillCircle_body. cbn [fst snd]. cbv zeta.
    revert Hx' Hy'. generalize (FillCircle_step s). intros l Hx' Hy'.
    rewrite (Z.add_comm (fc_y l) x0).
    rewrite !u8_small by lia.
    destruct (DrawLine_vertical_spec W H fuel (x0 + fc_x l)
                (y0 - fc_y l) (y0 + fc_y l) color d)
      as (d1 & Hd1 & Hi1 & Hp1); try lia.
    rewrite DrawLine_comm in Hd1. rewrite Hd1. cbn [bind].
    destruct (DrawLine_vertical_spec W H fuel (x0 - fc_x l)
                (y0 - fc_y l) (y0 + fc_y l) color d1)
      as (d2 & Hd2 & Hi2 & Hp2); try lia.
    rewrite DrawLine_comm in Hd2. rewrite Hd2. cbn [bind].
    destruct (DrawLine_vertical_spec W H fuel (x0 + fc_y l)
                (y0 - fc_x l) (y0 + fc_x l) color d2)
      as (d3 & Hd3 & Hi3 & Hp3); try lia.
    rewrite DrawLine_comm in Hd3. rewrite Hd3. cbn [bind].
    destruct (DrawLine_vertical_spec W H fuel (x0 - fc_y l)
                (y0 - fc_x l) (y0 + fc_x l) color d3)
      as (d4 & Hd4 & Hi4 & Hp4); try lia.
    rewrite DrawLine_comm in Hd4. rewrite Hd4. cbn [bind].
    destruct (IH n l d4) as (s' & Hs' & Hi' & Hp'); try lia.
    exists s'. split; [exact Hs'|]. split; [congruence|].
    intros a b. rewrite Hp', Hp4, Hp3, Hp2, Hp1. cbn [existsb].
    rewrite <- !chord_lines by lia.
    destruct (existsb (on_chord (a - x0) (b - y0)) (FillCircle_chords n l)),
      ((a =? x0 + fc_x l) && (y0 - fc_y l <=? b) && (b <=? y0 + fc_y l)),
      ((a =? x0 - fc_x l) && (y0 - fc_y l <=? b) && (b <=? y0 + fc_y l)),
      ((a =? x0 + fc_y l) && (y0 - fc_x l <=? b) && (b <=? y0 + fc_x l)),
      ((a =? x0 - fc_y l) && (y0 - fc_x l <=? b) && (b <=? y0 + fc_x l));
      reflexivity.
  - exists (s, d). split; [reflexivity|]. split; [reflexivity|].
    intros a b. reflexivity.
Qed.

Lemma seed_line (x0 y0 r a b : Z) :
  on_chord (a - x0) (b - y0) (0, r)
  = (a =? x0) && (y0 - r <=? b) && (b <=? y0 + r).
Proof. unfold on_chord. cbn [fst snd]. zcmp; reflexivity. Qed.

Lemma FillCircle_pixels_opp_l (r dx dy : Z) :
  FillCircle_pixels r (- dx) dy = FillCircle_pixels r dx dy.
Proof.
  rewrite (FillCircle_pixels_abs r (- dx)), Z.abs_opp.
  symmetry. apply FillCircle_pixels_abs.
Qed.

Lemma FillCircle_pixels_opp_r (r dx dy : Z) :
  FillCircle_pixels r dx (- dy) = FillCircle_pixels r dx dy.
Proof.
  rewrite (FillCircle_pixels_abs r dx (- dy)), Z.abs_opp.
  symmetry. apply FillCircle_pixels_abs.
Qed.

(** C9.  For a disc within the canvas, [FillCircle] returns, and sets the
    pixels whose offset [(dx, dy)] from the center is in
    [FillCircle_pixels radius], and no other.  That set is the same under
    the reflections in the vertical axis, the horizontal axis and the two
    diagonals through the center and under their compositions (the eight
    symmetries of the circle), and it contains the vertical diameter from
    [(x0, y0 - radius)] to [(x0, y0 + radius)]. *)
Theorem FillCircle_symmetric (W H : Z) (fuel : nat) (x0 y0 r color : Z)
    (d : glcd) :
  W <= 255 -> H <= 255 ->
  0 <= r -> r <= x0 -> x0 + r < W -> r <= y0 -> y0 + r < H ->
  (256 < fuel)%nat ->
  exists d',
    FillCircle W H fuel x0 y0 r color d = Some d' /\
    (forall a b,
       pix d' a b =
       if FillCircle_pixels r (a - x0) (b - y0) then color =? BLACK
       else pix d a b) /\
    (forall dx dy,
       FillCircle_pixels r (- dx) dy = FillCircle_pixels r dx dy /\
       FillCircle_pixels r dx (- dy) = FillCircle_pixels r dx dy /\
       FillCircle_pixels r (- dx) (- dy) = FillCircle_pixels r dx dy /\
       FillCircle_pixels r dy dx = FillCircle_pixels r dx dy /\
       FillCircle_pixels r (- dy) dx = FillCircle_pixels r dx dy /\
       FillCircle_pixels r dy (- dx) = FillCircle_pixels r dx dy /\
       FillCircle_pixels r (- dy) (- dx) = FillCircle_pixels r dx dy) /\
    (forall dy, - r <= dy <= r -> FillCircle_pixels r 0 dy = true).
Proof.
  intros HW HH Hr Hx0 Hx0r Hy0 Hy0r Hfuel.
  unfold FillCircle. cbv zeta.
  rewrite (u8_small (y0 - r)), (u8_small (y0 + r)) by lia.
  destruct (DrawLine_vertical_spec W H fuel x0 (y0 - r) (y0 + r) color d)
    as (d0 & Hd0 & Hi0 & Hp0); try lia.
  rewrite Hd0. cbn [bind].
  destruct (FillCircle_loop_spec W H fuel x0 y0 r color HW HH Hx0 Hx0r Hy0 Hy0r
              Hfuel fuel 256%nat
              (mkCircle (i16 (1 - r)) 1 (i16 (-2 * r)) 0 r) d0)
    as (s' & Hs' & _ & Hp'); cbn [fc_x fc_y]; try lia.
  rewrite Hs'. cbn [bind]. exists (snd s'). split; [reflexivity|].
  split; [|split].
  - intros a b. rewrite Hp', Hp0.
    unfold FillCircle_pixels, FillCircle_all_chords. cbn [existsb].
    rewrite seed_line.
    destruct ((a =? x0) && (y0 - r <=? b) && (b <=? y0 + r)),
      (existsb (on_chord (a - x0) (b - y0))
         (FillCircle_chords 256 (mkCircle (i16 (1 - r)) 1 (i16 (-2 * r)) 0 r)));
      reflexivity.
  - intros dx dy.
    assert (Hdiag : FillCircle_pixels r dy dx = FillCircle_pixels r dx dy)
      by (apply FillCircle_pixels_diagonal; lia).
    repeat split.
    + apply FillCircle_pixels_opp_l.
    + apply FillCircle_pixels_opp_r.
    + rewrite FillCircle_pixels_opp_l. apply FillCircle_pixels_opp_r.
    + exact Hdiag.
    + rewrite FillCircle_pixels_opp_l. exact Hdiag.
    + rewrite FillCircle_pixels_opp_r. exact Hdiag.
    + rewrite FillCircle_pixels_opp_l, FillCircle_pixels_opp_r. exact Hdiag.
  - intros dy Hdy. apply FillCircle_pixels_seed. exact Hdy.
Qed.

Lemma FillCircle_symmetric_witness :
  exists d',
    FillCircle 128 64 300 30 30 10 BLACK blank = Some d' /\
    (forall a b,
       pix d' a b =
       if FillCircle_pixels 10 (a - 30) (b - 30) then BLACK =? BLACK
       else pix blank a b) /\
    (forall dx dy,
       FillCircle_pixels 10 (- dx) dy = FillCircle_pixels 10 dx dy /\
       FillCircle_pixels 10 dx (- dy) = FillCircle_pixels 10 dx dy /\
       FillCircle_pixels 10 (- dx) (- dy) = FillCircle_pixels 10 dx dy /\
       FillCircle_pixels 10 dy dx = FillCircle_pixels 10 dx dy /\
       FillCircle_pixels 10 (- dy) dx = FillCircle_pixels 10 dx dy /\
       FillCircle_pixels 10 dy (- dx) = FillCircle_pixels 10 dx dy /\
       FillCircle_pixels 10 (- dy) (- dx) = FillCircle_pixels 10 dx dy) /\
    (forall dy, - 10 <= dy <= 10 -> FillCircle_pixels 10 0 dy = true).
Proof. apply (FillCircle_symmetric 128 64 300 30 30 10 BLACK blank); lia. Defined.

(** * Further properties of the routines *)

Lemma u8_range' (z : Z) : 0 <= u8 z < 256.
Proof. unfold u8. apply Z.mod_pos_bound. lia. Qed.

(** ** InvertRect at the ends of the [uint8_t] range *)

(** A loop whose condition holds in every state that its body reaches has
    no result, whatever the fuel. *)
Lemma while_loop_never {S : Type} (I : S -> Prop) (cond : S -> bool)
    (body : S -> option S) :
  (forall s, I s -> cond s = true /\ exists s', body s = Some s' /\ I s') ->
  forall fuel s, I s -> while_loop fuel cond body s = None.
Proof.
  intros Hstep fuel. induction fuel as [|fuel IH]; intros s HI; [reflexivity|].
  simpl. destruct (Hstep s HI) as (Hc & s' & Hb & HI').
  rewrite Hc, Hb. apply IH. exact HI'.
Qed.

(** X1.  [InvertRect] with [width = 255] never returns: the [uint8_t]
    counter of the column loop is never above 255, so [i <= width] holds
    for ever.  No amount of fuel gives a result. *)
Theorem InvertRect_width_255_never_returns (fuel : nat) (x y height : Z)
    (d : glcd) :
  InvertRect fuel x y 255 height d = None.
Proof.
  assert (Hnone : forall m d0, InvertRect_fractional fuel 255 m d0 = None).
  { intros m d0. unfold InvertRect_fractional.
    rewrite (while_loop_never (fun s : Z * glcd => 0 <= fst s < 256)).
    - reflexivity.
    - intros [i di] Hi. cbn [fst snd] in *. split; [apply Z.leb_le; lia|].
      eexists. split; [reflexivity|]. cbn [fst]. apply u8_range'.
    - cbn [fst]. lia. }
  unfold InvertRect. cbv zeta.
  destruct (u8 (height + 1) <? 8 - y mod 8); cbv beta iota;
    rewrite Hnone; reflexivity.
Qed.

(** X2.  [InvertRect] with [height = 255] returns and changes no pixel:
    [height++] wraps to 0, the mask of the first page is empty and no
    further page is visited. *)
Theorem InvertRect_height_255_changes_nothing (fuel : nat) (x y width : Z)
    (d : glcd) :
  0 <= x -> 0 <= y < 256 -> 0 <= width -> x + width <= 254 ->
  (256 < fuel)%nat ->
  exists d',
    InvertRect fuel x y width 255 d = Some d' /\
    forall a b, pix d' a b = pix d a b.
Proof.
  intros Hx Hy Hw Hxw Hfuel.
  unfold InvertRect. cbv zeta. change (u8 (255 + 1)) with 0.
  pose proof (Z.mod_pos_bound y 8 ltac:(lia)) as Hpo.
  assert (Hy0 : (y - y mod 8) mod 8 = 0).
  { pose proof (Z.div_mod y 8 ltac:(lia)) as Hdm.
    replace (y - y mod 8) with (y / 8 * 8) by lia. apply Z.mod_mul. lia. }
  assert (Hpoy : y mod 8 <= y) by (apply Z.mod_le; lia).
  revert Hpo Hy0 Hpoy. generalize (y mod 8). intros po Hpo Hy0 Hpoy.
  rewrite (u8_small (y - po)) by lia.
  destruct (Z.ltb_spec 0 (8 - po)); [|lia]. cbv beta iota.
  change (u8 (Z.shiftr 255 (8 - 0))) with 0.
  rewrite Z.shiftl_0_l. change (u8 0) with 0.
  destruct (InvertRect_fractional_spec fuel width 0 (GotoXY x (y - po) d))
    as (d1 & Hd1 & _ & Hpix1); cbn [GotoXY Coord_x Coord_y]; try assumption.
  rewrite Hd1. cbn [bind].
  rewrite while_loop_exit; [| reflexivity | lia].
  cbn [bind]. cbv beta iota. change (0 <? 0) with false. cbv iota.
  exists d1. split; [reflexivity|].
  intros a b. rewrite Hpix1. rewrite Z.testbit_0_l, andb_false_r. reflexivity.
Qed.

Lemma InvertRect_height_255_changes_nothing_witness :
  exists d',
    InvertRect 300 10 3 20 255 blank = Some d' /\
    forall a b, pix d' a b = pix blank a b.
Proof. apply (InvertRect_height_255_changes_nothing 300 10 3 20 blank); lia. Defined.

(** ** FillRect and InvertRect on the same arguments *)

(** X3.  [FillRect] and [InvertRect] address the same region: after
    [FillRect (x, y, w, h, color)], [InvertRect (x, y, w, h)] returns and
    leaves every pixel of the closed box in the other color and every other
    pixel as it was before the two calls. *)
Theorem InvertRect_after_FillRect (W H : Z) (fuel : nat)
    (x y w h color : Z) (d : glcd) :
  W <= 255 -> H <= 255 ->
  0 <= x -> 0 <= y -> 0 <= w -> 0 <= h -> x + w < W -> y + h < H ->
  (256 < fuel)%nat ->
  exists d',
    InvertRect fuel x y w h (FillRect x y w h color d) = Some d' /\
    forall a b,
      pix d' a b =
      if in_box x y w h a b then negb (color =? BLACK) else pix d a b.
Proof.
  intros HW HH Hx Hy Hw Hh Hxw Hyh Hfuel.
  destruct (InvertRect_spec fuel x y w h (FillRect x y w h color d))
    as (d' & Hd' & _ & Hpix); try lia.
  exists d'. split; [exact Hd'|].
  intros a b. rewrite Hpix. unfold FillRect, SetPixels, in_box. cbn [pix].
  rewrite (u8_small (x + w)), (u8_small (y + h)) by lia.
  destruct ((x <=? a) && (a <=? x + w) && (y <=? b) && (b <=? y + h));
    reflexivity.
Qed.

Lemma InvertRect_after_FillRect_witness :
  exists d',
    InvertRect 300 10 3 20 12 (FillRect 10 3 20 12 BLACK blank) = Some d' /\
    forall a b,
      pix d' a b =
      if in_box 10 3 20 12 a b then negb (BLACK =? BLACK) else pix blank a b.
Proof.
  apply (InvertRect_after_FillRect 128 64 300 10 3 20 12 BLACK blank); lia.
Defined.

(** ** SetDisplayMode there and back *)

(** X4.  Switching the display mode and switching it back restores the
    device: from a device whose flag is [v0], [SetDisplayMode v] with
    [v <> v0] and then [SetDisplayMode v0] both return, and the last device
    has the flag [v0] and the pixel memory of the first. *)
Theorem SetDisplayMode_there_and_back (W H : Z) (fuel : nat) (v : Z)
    (d : glcd) :
  0 < W <= 255 -> 0 < H <= 255 -> (256 < fuel)%nat ->
  Inverted d <> v ->
  exists d1 d2,
    SetDisplayMode W H fuel v d = Some d1 /\
    SetDisplayMode W H fuel (Inverted d) d1 = Some d2 /\
    Inverted d1 = v /\ Inverted d2 = Inverted d /\
    (forall a b, 0 <= a < W -> 0 <= b < H -> pix d1 a b = negb (pix d a b)) /\
    (forall a b, pix d2 a b = pix d a b).
Proof.
  intros HW HH Hfuel Hv. unfold SetDisplayMode.
  rewrite (proj2 (Z.eqb_neq _ _) Hv). cbn [negb].
  rewrite (u8_small (W - 1)), (u8_small (H - 1)) by lia.
  destruct (InvertRect_spec fuel 0 0 (W - 1) (H - 1) d)
    as (d1 & Hd1 & Hi1 & Hpix1); try lia.
  rewrite Hd1. cbn [bind].
  set (d1' := {| pix := pix d1; Coord_x := Coord_x d1; Coord_y := Coord_y d1;
                 Inverted := v |}).
  destruct (InvertRect_spec fuel 0 0 (W - 1) (H - 1) d1')
    as (d2 & Hd2 & Hi2 & Hpix2); try lia.
  exists d1'.
  exists {| pix := pix d2; Coord_x := Coord_x d2; Coord_y := Coord_y d2;
            Inverted := Inverted d |}.
  split; [reflexivity|]. cbn [Inverted d1'].
  assert (Hv' : (v =? Inverted d) = false) by (apply Z.eqb_neq; congruence).
  rewrite Hv'. cbn [negb]. fold d1'. rewrite Hd2. cbn [bind].
  split; [reflexivity|]. cbn [Inverted pix].
  split; [reflexivity|]. split; [reflexivity|]. split.
  - intros a b Ha Hb. subst d1'. cbn [pix]. rewrite Hpix1. zcmp; reflexivity.
  - intros a b. rewrite Hpix2. subst d1'. cbn [pix]. rewrite Hpix1.
    destruct ((0 <=? a) && (a <=? 0 + (W - 1)) && (0 <=? b) && (b <=? 0 + (H - 1)));
      [apply negb_involutive | reflexivity].
Qed.

Lemma SetDisplayMode_there_and_back_witness :
  exists d1 d2,
    SetDisplayMode 128 64 300 1 blank = Some d1 /\
    SetDisplayMode 128 64 300 (Inverted blank) d1 = Some d2 /\
    Inverted d1 = 1 /\ Inverted d2 = Inverted blank /\
    (forall a b, 0 <= a < 128 -> 0 <= b < 64 -> pix d1 a b = negb (pix blank a b)) /\
    (forall a b, pix d2 a b = pix blank a b).
Proof.
  apply (SetDisplayMode_there_and_back 128 64 300 1 blank);
    [lia | lia | lia | discriminate].
Defined.

(** ** The line helpers and DrawLine *)

(** A horizontal line between two columns of a row of the canvas. *)
Lemma DrawLine_horizontal_spec (W H : Z) (fuel : nat) (xa xb Y color : Z)
    (d : glcd) :
  W <= 255 -> H <= 255 -> 0 <= Y < H -> 0 <= xa -> xa <= xb -> xb < W ->
  (256 < fuel)%nat ->
  exists d',
    DrawLine W H fuel xa Y xb Y color d = Some d' /\
    Inverted d' = Inverted d /\
    forall a b,
      pix d' a b =
      if (b =? Y) && (xa <=? a) && (a <=? xb) then color =? BLACK
      else pix d a b.
Proof.
  intros HW HH HY Hxa Hxab Hxb Hfuel.
  unfold DrawLine.
  destruct (Z.geb_spec Y H); [lia|].
  destruct (Z.geb_spec xa W); [lia|].
  destruct (Z.geb_spec xb W); [lia|].
  assert (HYY : _GLCD_absDiff Y Y = 0)
    by (unfold _GLCD_absDiff; destruct (Z.gtb_spec Y Y); lia).
  assert (Hxx : _GLCD_absDiff xa xb = xb - xa)
    by (unfold _GLCD_absDiff; destruct (Z.gtb_spec xa xb); lia).
  rewrite HYY, Hxx.
  destruct (Z.gtb_spec 0 (xb - xa)); [lia|].
  cbv beta iota zeta. destruct (Z.gtb_spec xa xb); [lia|].
  cbv beta iota zeta. rewrite HYY.
  change (u8 0) with 0. rewrite (u8_small (xb - xa)) by lia.
  assert (HE : 0 <= (xb - xa) / 2 < 128).
  { split; [apply Z.div_pos; lia | apply Z.div_lt_upper_bound; lia]. }
  rewrite (i8_small ((xb - xa) / 2)) by lia.
  destruct (DrawLine_loop_straight false (xb - xa) (if Y <? Y then 1 else -1)
              color xa xb Y ((xb - xa) / 2) fuel d)
    as (s' & Hs' & Hinv & Hpix); try lia.
  rewrite Hs'. cbn [bind]. exists (ln_dev s').
  split; [reflexivity|]. split; [exact Hinv|]. exact Hpix.
Qed.

(** X5.  [DrawVLine (x, y, height)] and [DrawLine] from [(x, y)] to
    [(x, y + height)] set the same pixels: within the canvas [DrawLine]
    returns, and its pixel memory is the one of [DrawVLine] at every
    pixel. *)
Theorem DrawVLine_as_DrawLine (W H : Z) (fuel : nat) (x y height color : Z)
    (d : glcd) :
  W <= 255 -> H <= 255 ->
  0 <= x < W -> 0 <= y -> 0 <= height -> y + height < H ->
  (256 < fuel)%nat ->
  exists d',
    DrawLine W H fuel x y x (y + height) color d = Some d' /\
    forall a b, pix d' a b = pix (DrawVLine x y height color d) a b.
Proof.
  intros HW HH Hx Hy Hh Hyh Hfuel.
  destruct (DrawLine_vertical_spec W H fuel x y (y + height) color d)
    as (d' & Hd' & _ & Hpix); try lia.
  exists d'. split; [exact Hd'|].
  intros a b. rewrite Hpix. unfold DrawVLine, SetPixels. cbn [pix].
  rewrite (u8_small (y + height)) by lia. zcmp; reflexivity.
Qed.

Lemma DrawVLine_as_DrawLine_witness :
  exists d',
    DrawLine 128 64 300 7 5 7 (5 + 40) BLACK blank = Some d' /\
    forall a b, pix d' a b = pix (DrawVLine 7 5 40 BLACK blank) a b.
Proof. apply (DrawVLine_as_DrawLine 128 64 300 7 5 40 BLACK blank); lia. Defined.

(** X6.  [DrawHLine (x, y, width)] and [DrawLine] from [(x, y)] to
    [(x + width, y)] set the same pixels. *)
Theorem DrawHLine_as_DrawLine (W H : Z) (fuel : nat) (x y width color : Z)
    (d : glcd) :
  W <= 255 -> H <= 255 ->
  0 <= y < H -> 0 <= x -> 0 <= width -> x + width < W ->
  (256 < fuel)%nat ->
  exists d',
    DrawLine W H fuel x y (x + width) y color d = Some d' /\
    forall a b, pix d' a b = pix (DrawHLine x y width color d) a b.
Proof.
  intros HW HH Hy Hx Hw Hxw Hfuel.
  destruct (DrawLine_horizontal_spec W H fuel x (x + width) y color d)
    as (d' & Hd' & _ & Hpix); try lia.
  exists d'. split; [exact Hd'|].
  intros a b. rewrite Hpix. unfold DrawHLine, SetPixels. cbn [pix].
  rewrite (u8_small (x + width)) by lia. zcmp; reflexivity.
Qed.

Lemma DrawHLine_as_DrawLine_witness :
  exists d',
    DrawLine 128 64 300 7 5 (7 + 100) 5 BLACK blank = Some d' /\
    forall a b, pix d' a b = pix (DrawHLine 7 5 100 BLACK blank) a b.
Proof. apply (DrawHLine_as_DrawLine 128 64 300 7 5 100 BLACK blank); lia. Defined.

(** ** DrawBitmap: reading back, and what is left alone *)

Lemma byte_high_bits (v n : Z) : 0 <= v < 256 -> 8 <= n -> Z.testbit v n = false.
Proof.
  intros Hv Hn. destruct (Z.eq_dec v 0) as [-> | Hnz].
  - apply Z.testbit_0_l.
  - apply Z.bits_above_log2; [lia|].
    assert (Z.log2 v < 8) by (apply Z.log2_lt_pow2; lia). lia.
Qed.

Lemma page_byte_bound (p : Z -> Z -> bool) (x y0 : Z) :
  0 <= page_byte p x y0 < 256.
Proof.
  assert (Hb : forall c, 0 <= Z.b2z c <= 1) by (intros []; simpl; lia).
  unfold page_byte, fold_right.
  repeat match goal with
         | |- context [Z.b2z ?c] =>
             generalize (Hb c); generalize (Z.b2z c); intros ? ?
         end.
  lia.
Qed.

(** A page byte is the byte that has its eight pixels as bits. *)
Lemma page_byte_eq (p : Z -> Z -> bool) (x y0 v : Z) :
  0 <= v < 256 ->
  (forall k, 0 <= k < 8 -> p x (y0 + k) = Z.testbit v k) ->
  page_byte p x y0 = v.
Proof.
  intros Hv Hbits. apply Z.bits_inj'. intros n Hn.
  destruct (Z.lt_ge_cases n 8) as [Hlt | Hge].
  - rewrite page_byte_testbit by lia. apply Hbits. lia.
  - rewrite !byte_high_bits; auto using page_byte_bound.
Qed.

(** X7.  Round trip of [DrawBitmap] on a page boundary: with [y] a multiple
    of 8 and the footprint within the [uint8_t] coordinates, [ReadData] at
    column [x + i] of the page row [j] of the destination returns the data
    byte [2 + j * width + i] of the bitmap when the color is [BLACK] and
    its bitwise complement otherwise, whatever pixel memory held before. *)
Theorem DrawBitmap_read_back (fuel : nat) (bitmap : list Z) (x y color : Z)
    (d : glcd) (i j : Z) :
  0 <= x -> 0 <= y -> y mod 8 = 0 ->
  0 <= ReadPgmData bitmap 0 -> 0 <= ReadPgmData bitmap 1 ->
  x + ReadPgmData bitmap 0 <= 255 -> y + ReadPgmData bitmap 1 <= 255 ->
  0 <= i < ReadPgmData bitmap 0 -> 0 <= j < ReadPgmData bitmap 1 / 8 ->
  0 <= ReadPgmData bitmap (2 + j * ReadPgmData bitmap 0 + i) < 256 ->
  (256 < fuel)%nat ->
  exists d',
    DrawBitmap fuel bitmap x y color d = Some d' /\
    ReadData (GotoXY (x + i) (y + 8 * j) d') =
      if color =? BLACK
      then ReadPgmData bitmap (2 + j * ReadPgmData bitmap 0 + i)
      else u8 (Z.lnot (ReadPgmData bitmap (2 + j * ReadPgmData bitmap 0 + i))).
Proof.
  intros Hx Hy Hal Hw Hh Hxw Hyh Hi Hj Hbyte Hfuel.
  destruct (DrawBitmap_spec fuel bitmap x y color d) as (d' & Hd' & Hpix);
    try assumption.
  exists d'. split; [exact Hd'|].
  unfold ReadData. cbn [GotoXY Coord_x Coord_y pix].
  assert (Hal' : (y + 8 * j) mod 8 = 0).
  { rewrite Z.mul_comm, Z_mod_plus_full. exact Hal. }
  rewrite (aligned_page _ Hal').
  assert (Hrows : 8 * (ReadPgmData bitmap 1 / 8) <= ReadPgmData bitmap 1).
  { pose proof (Z.div_mod (ReadPgmData bitmap 1) 8 ltac:(lia)).
    pose proof (Z.mod_pos_bound (ReadPgmData bitmap 1) 8 ltac:(lia)). lia. }
  apply page_byte_eq.
  - destruct (color =? BLACK); [exact Hbyte | apply u8_range'].
  - intros k Hk. rewrite Hpix.
    destruct (Z.leb_spec x (x + i)); [|lia].
    destruct (Z.ltb_spec (x + i) (x + ReadPgmData bitmap 0)); [|lia].
    destruct (Z.leb_spec y (y + 8 * j + k)); [|lia].
    destruct (Z.ltb_spec (y + 8 * j + k) (y + 8 * (ReadPgmData bitmap 1 / 8)));
      [|lia].
    cbn [andb]. unfold drawn_pixel, bitmap_pixel.
    replace (x + i - x) with i by lia.
    replace (y + 8 * j + k - y) with (8 * j + k) by lia.
    destruct (row_of_page (8 * j + k) j) as [Hq Hr]; [lia|].
    rewrite Hq, Hr. replace (8 * j + k - 8 * j) with k by lia.
    destruct (color =? BLACK); cbn [negb].
    + apply xorb_false_r.
    + symmetry. apply flip_full_testbit. exact Hk.
Qed.

Lemma DrawBitmap_read_back_witness :
  exists d',
    DrawBitmap 300 [2; 16; 1; 128; 60; 195] 10 8 BLACK blank = Some d' /\
    ReadData (GotoXY (10 + 1) (8 + 8 * 1) d') =
      if BLACK =? BLACK
      then ReadPgmData [2; 16; 1; 128; 60; 195]
             (2 + 1 * ReadPgmData [2; 16; 1; 128; 60; 195] 0 + 1)
      else u8 (Z.lnot (ReadPgmData [2; 16; 1; 128; 60; 195]
                         (2 + 1 * ReadPgmData [2; 16; 1; 128; 60; 195] 0 + 1))).
Proof.
  apply (DrawBitmap_read_back 300 [2; 16; 1; 128; 60; 195] 10 8 BLACK blank 1 1);
    try (vm_compute; first [reflexivity | discriminate
                            | split; first [reflexivity | discriminate]]);
    lia.
Defined.

(** X8.  [DrawBitmap] leaves the pixels outside the closed box of the
    columns [x .. x + width] and the rows [y .. y + height] as they are;
    and when [y] and [height] are both multiples of 8 it leaves every pixel
    outside the footprint, the columns [x .. x + width - 1] and the rows
    [y .. y + height - 1], as it is. *)
Theorem DrawBitmap_frame (fuel : nat) (bitmap : list Z) (x y color : Z)
    (d : glcd) :
  0 <= x -> 0 <= y -> 0 <= ReadPgmData bitmap 0 -> 0 <= ReadPgmData bitmap 1 ->
  x + ReadPgmData bitmap 0 <= 255 -> y + ReadPgmData bitmap 1 <= 255 ->
  (256 < fuel)%nat ->
  exists d',
    DrawBitmap fuel bitmap x y color d = Some d' /\
    (forall a b,
       in_box x y (ReadPgmData bitmap 0) (ReadPgmData bitmap 1) a b = false ->
       pix d' a b = pix d a b) /\
    (y mod 8 = 0 -> ReadPgmData bitmap 1 mod 8 = 0 ->
     forall a b,
       (x <=? a) && (a <? x + ReadPgmData bitmap 0)
       && (y <=? b) && (b <? y + ReadPgmData bitmap 1) = false ->
       pix d' a b = pix d a b).
Proof.
  intros Hx Hy Hw Hh Hxw Hyh Hfuel.
  destruct (DrawBitmap_spec fuel bitmap x y color d) as (d' & Hd' & Hpix);
    try assumption.
  set (width := ReadPgmData bitmap 0) in *.
  set (height := ReadPgmData bitmap 1) in *.
  assert (Hrows : 8 * (height / 8) <= height).
  { pose proof (Z.div_mod height 8 ltac:(lia)).
    pose proof (Z.mod_pos_bound height 8 ltac:(lia)). lia. }
  exists d'. split; [exact Hd'|]. split.
  - intros a b Hout. rewrite Hpix, Hout, andb_false_r.
    revert Hout. unfold in_box. zcmp; cbn [andb]; intros; try discriminate;
      reflexivity.
  - intros Hal Hhal a b Hout. rewrite Hpix, Hal, Hhal. cbn [Z.eqb negb orb andb].
    assert (Hfull : 8 * (height / 8) = height).
    { pose proof (Z.div_mod height 8 ltac:(lia)). lia. }
    rewrite Hfull, Hout. reflexivity.
Qed.

Lemma DrawBitmap_frame_witness :
  exists d',
    DrawBitmap 300 [2; 16; 1; 128; 60; 195] 10 8 BLACK blank = Some d' /\
    (forall a b,
       in_box 10 8 (ReadPgmData [2; 16; 1; 128; 60; 195] 0)
         (ReadPgmData [2; 16; 1; 128; 60; 195] 1) a b = false ->
       pix d' a b = pix blank a b) /\
    (8 mod 8 = 0 -> ReadPgmData [2; 16; 1; 128; 60; 195] 1 mod 8 = 0 ->
     forall a b,
       (10 <=? a) && (a <? 10 + ReadPgmData [2; 16; 1; 128; 60; 195] 0)
       && (8 <=? b) && (b <? 8 + ReadPgmData [2; 16; 1; 128; 60; 195] 1) = false ->
       pix d' a b = pix blank a b).
Proof.
  apply (DrawBitmap_frame 300 [2; 16; 1; 128; 60; 195] 10 8 BLACK blank);
    try (vm_compute; first [reflexivity | discriminate]); lia.
Defined.

(** X9.  When [y] or [height] is not a multiple of 8, the pre-clear of
    [DrawBitmap] reaches one column and one row beyond the footprint: the
    pixels of the column [x + width] and of the row [y + height] that lie in
    the closed box are off afterwards, whatever they were and whatever the
    bitmap and the color are. *)
Theorem DrawBitmap_clears_beyond_footprint (fuel : nat) (bitmap : list Z)
    (x y color : Z) (d : glcd) :
  0 <= x -> 0 <= y -> 0 <= ReadPgmData bitmap 0 -> 0 <= ReadPgmData bitmap 1 ->
  x + ReadPgmData bitmap 0 <= 255 -> y + ReadPgmData bitmap 1 <= 255 ->
  y mod 8 <> 0 \/ ReadPgmData bitmap 1 mod 8 <> 0 ->
  (256 < fuel)%nat ->
  exists d',
    DrawBitmap fuel bitmap x y color d = Some d' /\
    (forall b, y <= b <= y + ReadPgmData bitmap 1 ->
       pix d' (x + ReadPgmData bitmap 0) b = false) /\
    (forall a, x <= a <= x + ReadPgmData bitmap 0 ->
       pix d' a (y + ReadPgmData bitmap 1) = false).
Proof.
  intros Hx Hy Hw Hh Hxw Hyh Hun Hfuel.
  destruct (DrawBitmap_spec fuel bitmap x y color d) as (d' & Hd' & Hpix);
    try assumption.
  set (width := ReadPgmData bitmap 0) in *.
  set (height := ReadPgmData bitmap 1) in *.
  assert (Hrows : 8 * (height / 8) <= height).
  { pose proof (Z.div_mod height 8 ltac:(lia)).
    pose proof (Z.mod_pos_bound height 8 ltac:(lia)). lia. }
  assert (Hpre : negb (y mod 8 =? 0) || negb (height mod 8 =? 0) = true).
  { destruct Hun as [Hun | Hun]; apply Z.eqb_neq in Hun; rewrite Hun;
      [reflexivity | apply orb_true_r]. }
  exists d'. split; [exact Hd'|]. split.
  - intros b Hb. rewrite Hpix, Hpre. unfold in_box. zcmp; reflexivity.
  - intros a Ha. rewrite Hpix, Hpre. unfold in_box. zcmp; reflexivity.
Qed.

Lemma DrawBitmap_clears_beyond_footprint_witness :
  exists d',
    DrawBitmap 300 [2; 8; 1; 128] 0 3 BLACK (SetDot 2 3 BLACK blank) = Some d' /\
    (forall b, 3 <= b <= 3 + ReadPgmData [2; 8; 1; 128] 1 ->
       pix d' (0 + ReadPgmData [2; 8; 1; 128] 0) b = false) /\
    (forall a, 0 <= a <= 0 + ReadPgmData [2; 8; 1; 128] 0 ->
       pix d' a (3 + ReadPgmData [2; 8; 1; 128] 1) = false).
Proof.
  apply (DrawBitmap_clears_beyond_footprint 300 [2; 8; 1; 128] 0 3 BLACK
           (SetDot 2 3 BLACK blank));
    try (vm_compute; first [reflexivity | discriminate]); try lia.
  left. vm_compute. discriminate.
Defined.

(** ** FillCircle: the square around the disc *)

Lemma chords_bounded_all : forallb chords_bounded (range 128) = true.
Proof. vm_compute. reflexivity. Qed.

Lemma FillCircle_pixels_in_square (r dx dy : Z) :
  0 <= r <= 127 -> FillCircle_pixels r dx dy = true ->
  - r <= dx <= r /\ - r <= dy <= r.
Proof.
  intros Hr Hin.
  assert (Hck : chords_bounded r = true).
  { pose proof chords_bounded_all as Hall. rewrite forallb_forall in Hall.
    apply Hall. apply range_In. lia. }
  unfold chords_bounded in Hck. rewrite forallb_forall in Hck.
  unfold FillCircle_pixels in Hin. apply existsb_exists in Hin.
  destruct Hin as (c & Hc & Hon). specialize (Hck c Hc).
  apply on_chord_true in Hon.
  rewrite andb_true_iff, !Z.leb_le in Hck. lia.
Qed.

(** [FillCircle] on a disc within the canvas: the pixels it sets. *)
Lemma FillCircle_spec (W H : Z) (fuel : nat) (x0 y0 r color : Z) (d : glcd) :
  W <= 255 -> H <= 255 ->
  0 <= r -> r <= x0 -> x0 + r < W -> r <= y0 -> y0 + r < H ->
  (256 < fuel)%nat ->
  exists d',
    FillCircle W H fuel x0 y0 r color d = Some d' /\
    forall a b,
      pix d' a b =
      if FillCircle_pixels r (a - x0) (b - y0) then color =? BLACK
      else pix d a b.
Proof.
  intros HW HH Hr Hx0 Hx0r Hy0 Hy0r Hfuel.
  unfold FillCircle. cbv zeta.
  rewrite (u8_small (y0 - r)), (u8_small (y0 + r)) by lia.
  destruct (DrawLine_vertical_spec W H fuel x0 (y0 - r) (y0 + r) color d)
    as (d0 & Hd0 & Hi0 & Hp0); try lia.
  rewrite Hd0. cbn [bind].
  destruct (FillCircle_loop_spec W H fuel x0 y0 r color HW HH Hx0 Hx0r Hy0 Hy0r
              Hfuel fuel 256%nat
              (mkCircle (i16 (1 - r)) 1 (i16 (-2 * r)) 0 r) d0)
    as (s' & Hs' & _ & Hp'); cbn [fc_x fc_y]; try lia.
  rewrite Hs'. cbn [bind]. exists (snd s'). split; [reflexivity|].
  intros a b. rewrite Hp', Hp0.
  unfold FillCircle_pixels, FillCircle_all_chords. cbn [existsb].
  rewrite seed_line.
  destruct ((a =? x0) && (y0 - r <=? b) && (b <=? y0 + r)),
    (existsb (on_chord (a - x0) (b - y0))
       (FillCircle_chords 256 (mkCircle (i16 (1 - r)) 1 (i16 (-2 * r)) 0 r)));
    reflexivity.
Qed.

(** X10.  [FillCircle] on a disc within the canvas changes no pixel outside
    the square of the columns [x0 - r .. x0 + r] and the rows
    [y0 - r .. y0 + r], sets a changed pixel to the color, and sets the four
    pixels at distance [r] from the center on the two axes: the square is
    the bounding box of what is drawn.  For [r = 0] the center is the only
    pixel set. *)
Theorem FillCircle_bounding_square (W H : Z) (fuel : nat)
    (x0 y0 r color : Z) (d : glcd) :
  W <= 255 -> H <= 255 ->
  0 <= r -> r <= x0 -> x0 + r < W -> r <= y0 -> y0 + r < H ->
  (256 < fuel)%nat ->
  exists d',
    FillCircle W H fuel x0 y0 r color d = Some d' /\
    (forall a b,
       in_box (x0 - r) (y0 - r) (2 * r) (2 * r) a b = false ->
       pix d' a b = pix d a b) /\
    (forall a b, pix d' a b = pix d a b \/ pix d' a b = (color =? BLACK)) /\
    pix d' (x0 - r) y0 = (color =? BLACK) /\
    pix d' (x0 + r) y0 = (color =? BLACK) /\
    pix d' x0 (y0 - r) = (color =? BLACK) /\
    pix d' x0 (y0 + r) = (color =? BLACK).
Proof.
  intros HW HH Hr Hx0 Hx0r Hy0 Hy0r Hfuel.
  destruct (FillCircle_spec W H fuel x0 y0 r color d) as (d' & Hd' & Hpix);
    try assumption.
  assert (Hseed : forall dy, - r <= dy <= r -> FillCircle_pixels r 0 dy = true)
    by (intros dy Hdy; apply FillCircle_pixels_seed; exact Hdy).
  assert (Hside : forall dx, - r <= dx <= r -> FillCircle_pixels r dx 0 = true).
  { intros dx Hdx. rewrite FillCircle_pixels_diagonal by lia.
    apply Hseed. exact Hdx. }
  exists d'. split; [exact Hd'|]. split; [|split; [|repeat split]].
  - intros a b Hout. rewrite Hpix.
    destruct (FillCircle_pixels r (a - x0) (b - y0)) eqn:Hin; [|reflexivity].
    apply FillCircle_pixels_in_square in Hin; [|lia].
    revert Hout. unfold in_box. zcmp; cbn [andb]; intros; discriminate.
  - intros a b. rewrite Hpix.
    destruct (FillCircle_pixels r (a - x0) (b - y0)); auto.
  - rewrite Hpix. replace (x0 - r - x0) with (- r) by lia.
    rewrite Z.sub_diag, Hside by lia. reflexivity.
  - rewrite Hpix. replace (x0 + r - x0) with r by lia.
    rewrite Z.sub_diag, Hside by lia. reflexivity.
  - rewrite Hpix. replace (y0 - r - y0) with (- r) by lia.
    rewrite Z.sub_diag, Hseed by lia. reflexivity.
  - rewrite Hpix. replace (y0 + r - y0) with r by lia.
    rewrite Z.sub_diag, Hseed by lia. reflexivity.
Qed.

Lemma FillCircle_bounding_square_witness :
  exists d',
    FillCircle 128 64 300 30 30 10 BLACK blank = Some d' /\
    (forall a b,
       in_box (30 - 10) (30 - 10) (2 * 10) (2 * 10) a b = false ->
       pix d' a b = pix blank a b) /\
    (forall a b, pix d' a b = pix blank a b \/ pix d' a b = (BLACK =? BLACK)) /\
    pix d' (30 - 10) 30 = (BLACK =? BLACK) /\
    pix d' (30 + 10) 30 = (BLACK =? BLACK) /\
    pix d' 30 (30 - 10) = (BLACK =? BLACK) /\
    pix d' 30 (30 + 10) = (BLACK =? BLACK).
Proof.
  apply (FillCircle_bounding_square 128 64 300 30 30 10 BLACK blank); lia.
Defined.

(** ** ClearScreen twice *)

(** X11.  [ClearScreen] overwrites: after [ClearScreen c1], [ClearScreen c2]
    leaves the pixel memory that [ClearScreen c2] alone leaves, at every
    pixel; and no [ClearScreen] changes a pixel outside the columns
    [0 .. DISPLAY_WIDTH - 1] and the rows [0 .. 63]. *)
Theorem ClearScreen_overwrites (W : Z) (fuel : nat) (c1 c2 : Z) (d : glcd) :
  0 < W <= 255 -> (256 < fuel)%nat ->
  exists d1 d12 d2,
    ClearScreen W fuel c1 d = Some d1 /\
    ClearScreen W fuel c2 d1 = Some d12 /\
    ClearScreen W fuel c2 d = Some d2 /\
    (forall a b, pix d12 a b = pix d2 a b) /\
    (forall a b, (0 <=? a) && (a <? W) && (0 <=? b) && (b <? 64) = false ->
       pix d2 a b = pix d a b).
Proof.
  intros HW Hfuel.
  destruct (ClearScreen_spec W fuel c1 d) as (d1 & Hd1 & Hp1); try lia.
  destruct (ClearScreen_spec W fuel c2 d1) as (d12 & Hd12 & Hp12); try lia.
  destruct (ClearScreen_spec W fuel c2 d) as (d2 & Hd2 & Hp2); try lia.
  exists d1, d12, d2. repeat split; try assumption.
  - intros a b. rewrite Hp12, Hp2, Hp1.
    destruct ((0 <=? a) && (a <? W) && (0 <=? b) && (b <? 64)); reflexivity.
  - intros a b Hout. rewrite Hp2, Hout. reflexivity.
Qed.

Lemma ClearScreen_overwrites_witness :
  exists d1 d12 d2,
    ClearScreen 128 300 BLACK blank = Some d1 /\
    ClearScreen 128 300 WHITE d1 = Some d12 /\
    ClearScreen 128 300 WHITE blank = Some d2 /\
    (forall a b, pix d12 a b = pix d2 a b) /\
    (forall a b, (0 <=? a) && (a <? 128) && (0 <=? b) && (b <? 64) = false ->
       pix d2 a b = pix blank a b).
Proof. apply (ClearScreen_overwrites 128 300 BLACK WHITE blank); lia. Defined.

(** ** Puts_P *)

Lemma i8_of_byte (c : Z) :
  0 <= c < 256 -> u8 (i8 c) = c /\ (i8 c = 0 <-> c = 0).
Proof.
  intros Hc. unfold i8, u8.
  destruct (Z.lt_ge_cases c 128) as [Hlo | Hhi].
  - rewrite (Z.mod_small (c + 128)) by lia.
    replace (c + 128 - 128) with c by lia.
    rewrite Z.mod_small by lia. lia.
  - replace (c + 128) with (c - 128 + 1 * 256) by lia.
    rewrite Z_mod_plus_full, (Z.mod_small (c - 128)) by lia.
    replace (c - 128 - 128) with (c + (-1) * 256) by lia.
    rewrite Z_mod_plus_full, Z.mod_small by lia. lia.
Qed.

Lemma Puts_P_loop (T : Type) (PutChar : Z -> T -> T) (s rest : list Z) :
  (forall c, In c s -> 0 < c < 256) ->
  forall (pre : list Z) (t : T) (fuel : nat),
    (length s < fuel)%nat ->
    while_loop fuel
      (fun st => negb (i8 (ReadPgmData (pre ++ s ++ 0 :: rest) (fst st)) =? 0))
      (fun st =>
         Some (fst st + 1,
               write T PutChar
                 (u8 (i8 (ReadPgmData (pre ++ s ++ 0 :: rest) (fst st))))
                 (snd st)))
      (Z.of_nat (length pre), t)
    = Some (Z.of_nat (length (pre ++ s)),
            fold_left (fun t c => PutChar c t) s t).
Proof.
  induction s as [|c s IH]; intros Hs pre t fuel Hfuel.
  - destruct fuel as [|fuel]; [simpl in Hfuel; lia|].
    assert (Hread : ReadPgmData (pre ++ [] ++ 0 :: rest) (Z.of_nat (length pre)) = 0).
    { unfold ReadPgmData. rewrite Nat2Z.id, app_nth2, Nat.sub_diag by lia.
      reflexivity. }
    cbn [while_loop fst snd]. rewrite Hread.
    change (i8 0 =? 0) with true. cbn [negb fold_left].
    rewrite app_nil_r. reflexivity.
  - destruct fuel as [|fuel]; [simpl in Hfuel; lia|].
    assert (Hread : ReadPgmData (pre ++ (c :: s) ++ 0 :: rest)
                      (Z.of_nat (length pre)) = c).
    { unfold ReadPgmData. rewrite Nat2Z.id, app_nth2, Nat.sub_diag by lia.
      reflexivity. }
    cbn [while_loop fst snd]. rewrite !Hread.
    assert (Hc : 0 < c < 256) by (apply Hs; left; reflexivity).
    destruct (i8_of_byte c) as [Hu Hz]; [lia|].
    destruct (Z.eqb_spec (i8 c) 0) as [He | _]; [apply Hz in He; lia|].
    cbn [negb]. rewrite Hu. unfold write at 2.
    replace (pre ++ (c :: s) ++ 0 :: rest) with ((pre ++ [c]) ++ s ++ 0 :: rest)
      by (rewrite <- app_assoc; reflexivity).
    replace (Z.of_nat (length pre) + 1) with (Z.of_nat (length (pre ++ [c])))
      by (rewrite length_app; simpl; lia).
    rewrite IH.
    + rewrite <- app_assoc. reflexivity.
    + intros c' Hc'. apply Hs. right. exact Hc'.
    + simpl in Hfuel. lia.
Qed.

(** X12.  [Puts_P] writes the characters before the first zero byte, in
    order, and stops there: on a string [s] of non-zero bytes followed by a
    zero it returns the text state after [PutChar] of each byte of [s], and
    what follows the zero in program memory plays no part.  On the empty
    string the text state is returned as it is. *)
Theorem Puts_P_stops_at_terminator (T : Type) (PutChar : Z -> T -> T)
    (fuel : nat) (s rest : list Z) (t : T) :
  (forall c, In c s -> 0 < c < 256) -> (length s < fuel)%nat ->
  Puts_P T PutChar fuel (s ++ 0 :: rest) t
  = Some (fold_left (fun t c => PutChar c t) s t).
Proof.
  intros Hs Hfuel. unfold Puts_P. cbv zeta.
  pose proof (Puts_P_loop T PutChar s rest Hs [] t fuel Hfuel) as Hloop.
  cbn [app length Z.of_nat] in Hloop. rewrite Hloop. reflexivity.
Qed.

Lemma Puts_P_stops_at_terminator_witness :
  Puts_P (list Z) (fun c t => t ++ [c]) 10 ([72; 105; 200] ++ 0 :: [33; 33]) []
  = Some (fold_left (fun t c => (fun c t => t ++ [c]) c t) [72; 105; 200] []).
Proof.
  apply (Puts_P_stops_at_terminator (list Z) (fun c t => t ++ [c]) 10
           [72; 105; 200] [33; 33] []).
  - intros c [<- | [<- | [<- | []]]]; lia.
  - simpl. lia.
Defined.

(** ** DrawRoundRect *)

Lemma arcs_end_all : forallb arcs_end (range 256) = true.
Proof. vm_compute. reflexivity. Qed.

Lemma DrawRoundRect_arcs_more_fuel (k : nat) :
  forall l pts, DrawRoundRect_arcs k l = Some pts ->
  forall k', (k <= k')%nat -> DrawRoundRect_arcs k' l = Some pts.
Proof.
  induction k as [|k IH]; intros l pts Hk k' Hle; [discriminate|].
  destruct k' as [|k']; [lia|].
  cbn [DrawRoundRect_arcs] in *.
  destruct (rr_x1 l <=? rr_y1 l); [|exact Hk].
  destruct (DrawRoundRect_arcs k (DrawRoundRect_step l)) as [pts'|] eqn:Hrec;
    [|discriminate].
  rewrite (IH _ _ Hrec k') by lia. exact Hk.
Qed.

Lemma DrawRoundRect_dots_spec (x y w h r color x1 y1 : Z) (d : glcd) (a b : Z) :
  pix (DrawRoundRect_dots x y w h r color x1 y1 d) a b =
  if existsb (at_point a b) (DrawRoundRect_dot_list x y w h r (x1, y1))
  then color =? BLACK else pix d a b.
Proof.
  unfold DrawRoundRect_dots, DrawRoundRect_dot_list, SetDot, at_point.
  cbn [pix existsb fst snd].
  repeat match goal with
         | |- context [(a =? ?u) && (b =? ?v)] =>
             destruct ((a =? u) && (b =? v))
         end; reflexivity.
Qed.

(** The loop of [DrawRoundRect]: it ends where its pairs end, and it sets
    the dots of its pairs. *)
Lemma DrawRoundRect_loop_spec (x y w h r color : Z) (k : nat) :
  forall (l : arc_locals) (d : glcd) (pts : list (Z * Z)),
    DrawRoundRect_arcs k l = Some pts ->
    exists s',
      while_loop k (fun s => rr_x1 (fst s) <=? rr_y1 (fst s))
        (DrawRoundRect_body x y w h r color) (l, d) = Some s' /\
      forall a b,
        pix (snd s') a b =
        if existsb (at_point a b)
             (flat_map (DrawRoundRect_dot_list x y w h r) pts)
        then color =? BLACK else pix d a b.
Proof.
  induction k as [|k IH]; intros l d pts Hk; [discriminate|].
  cbn [DrawRoundRect_arcs while_loop fst snd] in *.
  destruct (rr_x1 l <=? rr_y1 l).
  - destruct (DrawRoundRect_arcs k (DrawRoundRect_step l)) as [pts'|] eqn:Hrec;
      [|discriminate].
    injection Hk as <-.
    unfold DrawRoundRect_body at 1. cbn [fst snd].
    destruct (IH (DrawRoundRect_step l)
                (DrawRoundRect_dots x y w h r color (rr_x1 l) (rr_y1 l) d)
                pts' Hrec) as (s' & Hs' & Hpix).
    exists s'. split; [exact Hs'|].
    intros a b. rewrite Hpix, DrawRoundRect_dots_spec.
    cbn [flat_map]. rewrite existsb_app.
    destruct (existsb (at_point a b)
                (DrawRoundRect_dot_list x y w h r (rr_x1 l, rr_y1 l))),
      (existsb (at_point a b)
         (flat_map (DrawRoundRect_dot_list x y w h r) pts'));
      reflexivity.
  - injection Hk as <-. exists (l, d). split; [reflexivity|].
    intros a b. reflexivity.
Qed.

(** [DrawRoundRect] on any [uint8_t] arguments: it returns, and it sets the
    pixels of [DrawRoundRect_pixels]. *)
Lemma DrawRoundRect_spec (fuel : nat) (x y w h r color : Z) (d : glcd) :
  0 <= r < 256 -> (256 <= fuel)%nat ->
  exists d',
    DrawRoundRect fuel x y w h r color d = Some d' /\
    forall a b,
      pix d' a b =
      if DrawRoundRect_pixels x y w h r a b then color =? BLACK
      else pix d a b.
Proof.
  intros Hr Hfuel.
  assert (Hend : arcs_end r = true).
  { pose proof arcs_end_all as Hall. rewrite forallb_forall in Hall.
    apply Hall. apply range_In. lia. }
  unfold arcs_end in Hend.
  destruct (DrawRoundRect_arcs 256 (mkArc (i16 (3 - 2 * r)) 0 r))
    as [pts|] eqn:Hpts; [|discriminate].
  pose proof (DrawRoundRect_arcs_more_fuel _ _ _ Hpts fuel Hfuel) as Hpts'.
  destruct (DrawRoundRect_loop_spec x y w h r color fuel _ d pts Hpts')
    as (s' & Hs' & Hpix).
  unfold DrawRoundRect. cbv zeta. rewrite Hs'. cbn [bind].
  eexists. split; [reflexivity|].
  intros a b.
  unfold DrawHLine, DrawVLine, SetPixels. cbn [pix]. rewrite Hpix.
  unfold DrawRoundRect_pixels, DrawRoundRect_points, in_rect. rewrite Hpts.
  destruct (existsb (at_point a b)
              (flat_map (DrawRoundRect_dot_list x y w h r) pts)),
    ((u8 (x + r) <=? a) && (a <=? u8 (u8 (x + r) + u8 (w - 2 * r)))
     && (y <=? b) && (b <=? y)),
    ((u8 (x + r) <=? a) && (a <=? u8 (u8 (x + r) + u8 (w - 2 * r)))
     && (u8 (y + h) <=? b) && (b <=? u8 (y + h))),
    ((x <=? a) && (a <=? x) && (u8 (y + r) <=? b)
     && (b <=? u8 (u8 (y + r) + u8 (h - 2 * r)))),
    ((u8 (x + w) <=? a) && (a <=? u8 (x + w)) && (u8 (y + r) <=? b)
     && (b <=? u8 (u8 (y + r) + u8 (h - 2 * r))));
    reflexivity.
Qed.

Lemma arcs_check_all : forallb arcs_check (map Z.succ (range 127)) = true.
Proof. vm_compute. reflexivity. Qed.

Lemma arcs_checked (r : Z) :
  1 <= r <= 127 ->
  In (0, r) (DrawRoundRect_points r) /\
  forall p, In p (DrawRoundRect_points r) ->
    0 <= fst p <= snd p /\ snd p <= r /\ fst p < r /\
    FillCircle_pixels r (fst p) (snd p) = true.
Proof.
  intros Hr.
  assert (Hck : arcs_check r = true).
  { pose proof arcs_check_all as Hall. rewrite forallb_forall in Hall.
    apply Hall. apply in_map_iff. exists (r - 1). split; [lia|].
    apply range_In. lia. }
  unfold arcs_check in Hck. cbv zeta in Hck.
  apply andb_true_iff in Hck. destruct Hck as [Hfirst Hall].
  split.
  - apply existsb_exists in Hfirst. destruct Hfirst as ([p q] & Hin & Hat).
    unfold at_point in Hat. cbn [fst snd] in Hat.
    apply andb_true_iff in Hat. destruct Hat as [Hp Hq].
    apply Z.eqb_eq in Hp. apply Z.eqb_eq in Hq. subst. exact Hin.
  - intros p Hin. rewrite forallb_forall in Hall. specialize (Hall p Hin).
    rewrite !andb_true_iff, !Z.leb_le, negb_true_iff, Z.eqb_neq in Hall.
    destruct Hall as ((((H0 & H1) & H2) & H3) & H4).
    repeat split; try lia.
    unfold FillCircle_pixels. rewrite <- H4.
    apply existsb_pointwise. intros c. unfold on_chord.
    rewrite !Z.abs_eq by lia. reflexivity.
Qed.

Lemma existsb_flat_map {A B : Type} (f : B -> bool) (g : A -> list B)
    (l : list A) :
  existsb f (flat_map g l) = existsb (fun p => existsb f (g p)) l.
Proof.
  induction l as [|p l IH]; [reflexivity|].
  cbn [flat_map existsb]. rewrite existsb_app, IH. reflexivity.
Qed.

Lemma existsb_pointwise_in {A : Type} (f g : A -> bool) (l : list A) :
  (forall c, In c l -> f c = g c) -> existsb f l = existsb g l.
Proof.
  intros Hfg. induction l as [|c l IH]; [reflexivity|].
  cbn [existsb]. rewrite Hfg by (left; reflexivity).
  rewrite IH; [reflexivity|]. intros c' Hc'. apply Hfg. right. exact Hc'.
Qed.

(** Within the [uint8_t] coordinates no conversion of [DrawRoundRect]
    wraps. *)
Lemma DrawRoundRect_pixels_in_range (x y w h r a b : Z) :
  0 <= x -> 0 <= y -> 1 <= r -> 2 * r <= w -> 2 * r <= h ->
  x + w <= 255 -> y + h <= 255 ->
  DrawRoundRect_pixels x y w h r a b =
  existsb (at_point a b) (flat_map (round_dots x y w h r) (DrawRoundRect_points r))
  || in_rect (x + r) y (x + w - r) y a b
  || in_rect (x + r) (y + h) (x + w - r) (y + h) a b
  || in_rect x (y + r) x (y + h - r) a b
  || in_rect (x + w) (y + r) (x + w) (y + h - r) a b.
Proof.
  intros Hx Hy Hr Hw Hh Hxw Hyh.
  destruct (arcs_checked r) as [_ Hpts]; [lia|].
  unfold DrawRoundRect_pixels.
  rewrite !(u8_small (x + r)), !(u8_small (y + r)), !(u8_small (w - 2 * r)),
    !(u8_small (h - 2 * r)), !(u8_small (x + w)), !(u8_small (y + h)) by lia.
  rewrite !(u8_small (x + r + (w - 2 * r))), !(u8_small (y + r + (h - 2 * r)))
    by lia.
  replace (x + r + (w - 2 * r)) with (x + w - r) by lia.
  replace (y + r + (h - 2 * r)) with (y + h - r) by lia.
  do 4 f_equal.
  rewrite !existsb_flat_map. apply existsb_pointwise_in.
  intros p Hin. destruct (Hpts p Hin) as (H0 & H1 & H2 & _).
  unfold DrawRoundRect_dot_list, round_dots.
  rewrite !u8_small by lia. reflexivity.
Qed.

Lemma round_dots_in (x y w h r : Z) (p q : Z * Z) :
  In q (round_dots x y w h r p) ->
  q = (x + r - fst p, y + r - snd p) \/
  q = (x + r - snd p, y + r - fst p) \/
  q = (x + w - r + fst p, y + r - snd p) \/
  q = (x + w - r + snd p, y + r - fst p) \/
  q = (x + w - r + fst p, y + h - r + snd p) \/
  q = (x + w - r + snd p, y + h - r + fst p) \/
  q = (x + r - fst p, y + h - r + snd p) \/
  q = (x + r - snd p, y + h - r + fst p).
Proof.
  unfold round_dots. cbn [In]. intros Hq.
  repeat (destruct Hq as [Hq | Hq]; [subst q; tauto|]). contradiction.
Qed.

(** A dot of the loop, within the [uint8_t] coordinates: it lies in the
    box, and on none of its four corners. *)
Lemma round_dot_in_box (x y w h r a b : Z) :
  1 <= r <= 127 -> 2 * r <= w -> 2 * r <= h ->
  existsb (at_point a b)
    (flat_map (round_dots x y w h r) (DrawRoundRect_points r)) = true ->
  x <= a <= x + w /\ y <= b <= y + h /\
  ~ (a = x /\ b = y) /\ ~ (a = x + w /\ b = y) /\
  ~ (a = x /\ b = y + h) /\ ~ (a = x + w /\ b = y + h).
Proof.
  intros Hr Hw Hh Hdot.
  destruct (arcs_checked r) as [_ Hpts]; [lia|].
  apply existsb_exists in Hdot. destruct Hdot as (q & Hq & Hat).
  apply in_flat_map in Hq. destruct Hq as (p & Hp & Hq).
  destruct (Hpts p Hp) as (H0 & H1 & H2 & _).
  unfold at_point in Hat. apply andb_true_iff in Hat.
  destruct Hat as [Ha Hb]. apply Z.eqb_eq in Ha. apply Z.eqb_eq in Hb.
  apply round_dots_in in Hq.
  repeat (destruct Hq as [Hq | Hq]; [subst q; cbn [fst snd] in *; lia|]).
  subst q; cbn [fst snd] in *; lia.
Qed.

(** X13.  [DrawRoundRect] with [1 <= radius], [2 * radius <= width],
    [2 * radius <= height] and the box within the canvas: it returns; it
    changes no pixel outside the closed box of the columns [x .. x + width]
    and the rows [y .. y + height], and sets a changed pixel to the color;
    the straight part of each side, between the arcs, is set; and the four
    corner pixels of the box are left as they were. *)
Theorem DrawRoundRect_in_box (W H : Z) (fuel : nat)
    (x y w h r color : Z) (d : glcd) :
  W <= 255 -> H <= 255 -> 0 <= x -> 0 <= y ->
  1 <= r -> 2 * r <= w -> 2 * r <= h -> x + w < W -> y + h < H ->
  (256 <= fuel)%nat ->
  exists d',
    DrawRoundRect fuel x y w h r color d = Some d' /\
    (forall a b, in_box x y w h a b = false -> pix d' a b = pix d a b) /\
    (forall a b, pix d' a b = pix d a b \/ pix d' a b = (color =? BLACK)) /\
    (forall a, x + r <= a <= x + w - r ->
       pix d' a y = (color =? BLACK) /\ pix d' a (y + h) = (color =? BLACK)) /\
    (forall b, y + r <= b <= y + h - r ->
       pix d' x b = (color =? BLACK) /\ pix d' (x + w) b = (color =? BLACK)) /\
    pix d' x y = pix d x y /\ pix d' (x + w) y = pix d (x + w) y /\
    pix d' x (y + h) = pix d x (y + h) /\
    pix d' (x + w) (y + h) = pix d (x + w) (y + h).
Proof.
  intros HW HH Hx Hy Hr Hw Hh Hxw Hyh Hfuel.
  destruct (DrawRoundRect_spec fuel x y w h r color d) as (d' & Hd' & Hpix);
    [lia | exact Hfuel |].
  assert (Hset : forall a b,
    DrawRoundRect_pixels x y w h r a b =
    existsb (at_point a b)
      (flat_map (round_dots x y w h r) (DrawRoundRect_points r))
    || in_rect (x + r) y (x + w - r) y a b
    || in_rect (x + r) (y + h) (x + w - r) (y + h) a b
    || in_rect x (y + r) x (y + h - r) a b
    || in_rect (x + w) (y + r) (x + w) (y + h - r) a b)
    by (intros a b; apply DrawRoundRect_pixels_in_range; lia).
  assert (Hdot : forall a b,
    existsb (at_point a b)
      (flat_map (round_dots x y w h r) (DrawRoundRect_points r)) = true ->
    x <= a <= x + w /\ y <= b <= y + h /\
    ~ (a = x /\ b = y) /\ ~ (a = x + w /\ b = y) /\
    ~ (a = x /\ b = y + h) /\ ~ (a = x + w /\ b = y + h))
    by (intros a b; apply round_dot_in_box; lia).
  assert (Hcorner : forall a b,
    (a = x \/ a = x + w) -> (b = y \/ b = y + h) ->
    DrawRoundRect_pixels x y w h r a b = false).
  { intros a b Ha Hb. rewrite Hset.
    destruct (existsb (at_point a b)
                (flat_map (round_dots x y w h r) (DrawRoundRect_points r)))
      eqn:He.
    - apply Hdot in He. lia.
    - unfold in_rect. zcmp; reflexivity. }
  exists d'. split; [exact Hd'|].
  split; [|split; [|split; [|split; [|repeat split]]]].
  - intros a b Hout. rewrite Hpix, Hset.
    destruct (existsb (at_point a b)
                (flat_map (round_dots x y w h r) (DrawRoundRect_points r)))
      eqn:He.
    + apply Hdot in He. revert Hout. unfold in_box.
      zcmp; cbn [andb]; intros; discriminate.
    + revert Hout. unfold in_box, in_rect.
      zcmp; cbn [andb orb]; intros; try discriminate; reflexivity.
  - intros a b. rewrite Hpix.
    destruct (DrawRoundRect_pixels x y w h r a b); auto.
  - intros a Ha. rewrite !Hpix, !Hset. unfold in_rect. split.
    + destruct (Z.leb_spec (x + r) a), (Z.leb_spec a (x + w - r)),
        (Z.leb_spec y y); try lia.
      cbn [andb]. rewrite orb_true_r. reflexivity.
    + destruct (Z.leb_spec (x + r) a), (Z.leb_spec a (x + w - r)),
        (Z.leb_spec (y + h) (y + h)); try lia.
      cbn [andb]. rewrite !orb_true_r. reflexivity.
  - intros b Hb. rewrite !Hpix, !Hset. unfold in_rect. split.
    + destruct (Z.leb_spec (y + r) b), (Z.leb_spec b (y + h - r)),
        (Z.leb_spec x x); try lia.
      cbn [andb]. rewrite !orb_true_r. reflexivity.
    + destruct (Z.leb_spec (y + r) b), (Z.leb_spec b (y + h - r)),
        (Z.leb_spec (x + w) (x + w)); try lia.
      cbn [andb]. rewrite !orb_true_r. reflexivity.
  - rewrite Hpix, Hcorner by auto. reflexivity.
  - rewrite Hpix, Hcorner by auto. reflexivity.
  - rewrite Hpix, Hcorner by auto. reflexivity.
  - rewrite Hpix, Hcorner by auto. reflexivity.
Qed.

Lemma DrawRoundRect_in_box_witness :
  exists d',
    DrawRoundRect 300 10 5 60 40 8 BLACK blank = Some d' /\
    (forall a b, in_box 10 5 60 40 a b = false -> pix d' a b = pix blank a b) /\
    (forall a b, pix d' a b = pix blank a b \/ pix d' a b = (BLACK =? BLACK)) /\
    (forall a, 10 + 8 <= a <= 10 + 60 - 8 ->
       pix d' a 5 = (BLACK =? BLACK) /\ pix d' a (5 + 40) = (BLACK =? BLACK)) /\
    (forall b, 5 + 8 <= b <= 5 + 40 - 8 ->
       pix d' 10 b = (BLACK =? BLACK) /\ pix d' (10 + 60) b = (BLACK =? BLACK)) /\
    pix d' 10 5 = pix blank 10 5 /\ pix d' (10 + 60) 5 = pix blank (10 + 60) 5 /\
    pix d' 10 (5 + 40) = pix blank 10 (5 + 40) /\
    pix d' (10 + 60) (5 + 40) = pix blank (10 + 60) (5 + 40).
Proof.
  apply (DrawRoundRect_in_box 128 64 300 10 5 60 40 8 BLACK blank); lia.
Defined.

Lemma DrawRoundRect_points_0 :
  existsb (at_point 1 255) (DrawRoundRect_points 0) = true.
Proof. vm_compute. reflexivity. Qed.

(** With [radius = 0] the second turn of the loop of [DrawRoundRect] runs
    at [x1 = 1], [y1 = 255] and sets the dot [(x - 1, y + 1)]. *)
Lemma DrawRoundRect_radius_0_dot (fuel : nat) (x y w h color : Z) (d : glcd) :
  1 <= x < 256 -> 0 <= y <= 254 -> (256 <= fuel)%nat ->
  exists d',
    DrawRoundRect fuel x y w h 0 color d = Some d' /\
    pix d' (x - 1) (y + 1) = (color =? BLACK).
Proof.
  intros Hx Hy Hfuel.
  destruct (DrawRoundRect_spec fuel x y w h 0 color d) as (d' & Hd' & Hpix);
    [lia | exact Hfuel |].
  exists d'. split; [exact Hd'|].
  rewrite Hpix.
  assert (Hin : DrawRoundRect_pixels x y w h 0 (x - 1) (y + 1) = true).
  { unfold DrawRoundRect_pixels.
    assert (Hdots : existsb (at_point (x - 1) (y + 1))
              (flat_map (DrawRoundRect_dot_list x y w h 0)
                 (DrawRoundRect_points 0)) = true).
    { pose proof DrawRoundRect_points_0 as H0.
      apply existsb_exists in H0. destruct H0 as ([p q] & Hp & Hat).
      unfold at_point in Hat. cbn [fst snd] in Hat.
      apply andb_true_iff in Hat. destruct Hat as [H1 H255].
      apply Z.eqb_eq in H1. apply Z.eqb_eq in H255. subst p q.
      apply (proj2 (existsb_exists _ _)).
      exists (u8 (x + 0 - 1), u8 (y + 0 - 255)). split.
      - apply (proj2 (in_flat_map _ _ _)). exists (1, 255).
        split; [exact Hp|].
        unfold DrawRoundRect_dot_list. cbn [fst snd]. left. reflexivity.
      - unfold at_point. cbn [fst snd].
        rewrite (u8_small (x + 0 - 1)) by lia.
        assert (Hy1 : u8 (y + 0 - 255) = y + 1).
        { unfold u8. replace (y + 0 - 255) with (y + 1 + (-1) * 256) by lia.
          rewrite Z_mod_plus_full. apply Z.mod_small. lia. }
        rewrite Hy1. rewrite !(proj2 (Z.eqb_eq _ _)) by lia. reflexivity. }
    rewrite Hdots. cbn [orb]. reflexivity. }
  rewrite Hin. reflexivity.
Qed.

(** X14.  [DrawRoundRect] with [radius = 0] does not draw the plain
    rectangle only: in the first turn of the loop [y1--] takes the
    [uint8_t] [y1] from 0 to 255 and the loop goes on with dots far from the
    box.  Whatever [width] and [height] are, the pixel [(x - 1, y + 1)],
    left of the box, is set. *)
Theorem DrawRoundRect_radius_0_strays (fuel : nat) (x y w h color : Z)
    (d : glcd) :
  1 <= x < 256 -> 0 <= y <= 254 -> (256 <= fuel)%nat ->
  exists d',
    DrawRoundRect fuel x y w h 0 color d = Some d' /\
    in_box x y w h (x - 1) (y + 1) = false /\
    pix d' (x - 1) (y + 1) = (color =? BLACK).
Proof.
  intros Hx Hy Hfuel.
  destruct (DrawRoundRect_radius_0_dot fuel x y w h color d)
    as (d' & Hd' & Hpix); try assumption.
  exists d'. split; [exact Hd'|]. split; [|exact Hpix].
  unfold in_box. destruct (Z.leb_spec x (x - 1)); [lia | reflexivity].
Qed.

Lemma DrawRoundRect_radius_0_strays_witness :
  exists d',
    DrawRoundRect 300 10 5 60 40 0 BLACK blank = Some d' /\
    in_box 10 5 60 40 (10 - 1) (5 + 1) = false /\
    pix d' (10 - 1) (5 + 1) = (BLACK =? BLACK).
Proof.
  apply (DrawRoundRect_radius_0_strays 300 10 5 60 40 BLACK blank); lia.
Defined.

(** ** DrawCircle *)

Lemma eqb_by_iff (n m n' m' : Z) :
  (n = m <-> n' = m') -> (n =? m) = (n' =? m').
Proof.
  intros Hiff. destruct (Z.eqb_spec n m) as [He | Hne].
  - symmetry. apply Z.eqb_eq. apply Hiff. exact He.
  - symmetry. apply Z.eqb_neq. intros He. apply Hne. apply Hiff. exact He.
Qed.

Lemma abs_eqb (v t : Z) :
  0 <= t -> (Z.abs v =? t) = ((v =? t) || (v =? - t)).
Proof.
  intros Ht.
  destruct (Z.eqb_spec (Z.abs v) t), (Z.eqb_spec v t), (Z.eqb_spec v (- t));
    try reflexivity; lia.
Qed.

Lemma circle_dots (xc yc r a b : Z) (p : Z * Z) :
  0 <= fst p -> 0 <= snd p ->
  existsb (at_point a b) (round_dots (xc - r) (yc - r) (2 * r) (2 * r) r p)
  = ((Z.abs (a - xc) =? fst p) && (Z.abs (b - yc) =? snd p)
     || (Z.abs (a - xc) =? snd p) && (Z.abs (b - yc) =? fst p)).
Proof.
  intros H0 H1. destruct p as [x1 y1]. cbn [fst snd] in *.
  unfold round_dots, at_point. cbn [existsb fst snd].
  rewrite !abs_eqb by assumption.
  rewrite (eqb_by_iff a (xc - r + r - x1) (a - xc) (- x1)) by lia.
  rewrite (eqb_by_iff a (xc - r + r - y1) (a - xc) (- y1)) by lia.
  rewrite (eqb_by_iff a (xc - r + 2 * r - r + x1) (a - xc) x1) by lia.
  rewrite (eqb_by_iff a (xc - r + 2 * r - r + y1) (a - xc) y1) by lia.
  rewrite (eqb_by_iff b (yc - r + r - x1) (b - yc) (- x1)) by lia.
  rewrite (eqb_by_iff b (yc - r + r - y1) (b - yc) (- y1)) by lia.
  rewrite (eqb_by_iff b (yc - r + 2 * r - r + x1) (b - yc) x1) by lia.
  rewrite (eqb_by_iff b (yc - r + 2 * r - r + y1) (b - yc) y1) by lia.
  destruct (a - xc =? x1), (a - xc =? - x1), (a - xc =? y1), (a - xc =? - y1),
    (b - yc =? x1), (b - yc =? - x1), (b - yc =? y1), (b - yc =? - y1);
    reflexivity.
Qed.

(** [DrawCircle] on a disc within the canvas: the pixels it sets. *)
Lemma DrawCircle_spec (W H : Z) (fuel : nat) (xc yc r color : Z) (d : glcd) :
  W <= 255 -> H <= 255 ->
  1 <= r -> r <= xc -> xc + r < W -> r <= yc -> yc + r < H ->
  (256 <= fuel)%nat ->
  exists d',
    DrawCircle fuel xc yc r color d = Some d' /\
    forall a b,
      pix d' a b =
      if DrawCircle_pixels r (a - xc) (b - yc) then color =? BLACK
      else pix d a b.
Proof.
  intros HW HH Hr Hxc Hxcr Hyc Hycr Hfuel.
  unfold DrawCircle.
  rewrite (u8_small (xc - r)), (u8_small (yc - r)), (u8_small (2 * r)) by lia.
  destruct (DrawRoundRect_spec fuel (xc - r) (yc - r) (2 * r) (2 * r) r color d)
    as (d' & Hd' & Hpix); [lia | exact Hfuel |].
  exists d'. split; [exact Hd'|].
  intros a b. rewrite Hpix. f_equal.
  rewrite DrawRoundRect_pixels_in_range by lia.
  destruct (arcs_checked r) as [Hfirst Hpts]; [lia|].
  rewrite existsb_flat_map.
  rewrite (existsb_pointwise_in _
             (fun p => (Z.abs (a - xc) =? fst p) && (Z.abs (b - yc) =? snd p)
                       || (Z.abs (a - xc) =? snd p) && (Z.abs (b - yc) =? fst p))).
  2:{ intros p Hp. destruct (Hpts p Hp) as (H0 & _).
      apply circle_dots; lia. }
  fold (DrawCircle_pixels r (a - xc) (b - yc)).
  destruct (DrawCircle_pixels r (a - xc) (b - yc)) eqn:Hc; [reflexivity|].
  cbn [orb].
  assert (Haxis : forall dx dy,
            (Z.abs dx = 0 /\ Z.abs dy = r) \/ (Z.abs dx = r /\ Z.abs dy = 0) ->
            DrawCircle_pixels r dx dy = true).
  { intros dx dy Hax. unfold DrawCircle_pixels. apply existsb_exists.
    exists (0, r). split; [exact Hfirst|]. cbn [fst snd].
    rewrite orb_true_iff, !andb_true_iff, !Z.eqb_eq. exact Hax. }
  unfold in_rect.
  assert (Hno : ~ ((Z.abs (a - xc) = 0 /\ Z.abs (b - yc) = r)
                   \/ (Z.abs (a - xc) = r /\ Z.abs (b - yc) = 0))).
  { intros Hax. apply Haxis in Hax. congruence. }
  zcmp; reflexivity.
Qed.

Lemma DrawCircle_pixels_opp_l (r dx dy : Z) :
  DrawCircle_pixels r (- dx) dy = DrawCircle_pixels r dx dy.
Proof. unfold DrawCircle_pixels. rewrite Z.abs_opp. reflexivity. Qed.

Lemma DrawCircle_pixels_opp_r (r dx dy : Z) :
  DrawCircle_pixels r dx (- dy) = DrawCircle_pixels r dx dy.
Proof. unfold DrawCircle_pixels. rewrite Z.abs_opp. reflexivity. Qed.

Lemma DrawCircle_pixels_swap (r dx dy : Z) :
  DrawCircle_pixels r dy dx = DrawCircle_pixels r dx dy.
Proof.
  unfold DrawCircle_pixels. apply existsb_pointwise. intros p.
  rewrite orb_comm.
  rewrite (andb_comm (Z.abs dy =? snd p)), (andb_comm (Z.abs dy =? fst p)).
  reflexivity.
Qed.

Lemma DrawCircle_pixels_true (r dx dy : Z) :
  DrawCircle_pixels r dx dy = true ->
  exists p, In p (DrawRoundRect_points r) /\
    ((Z.abs dx = fst p /\ Z.abs dy = snd p)
     \/ (Z.abs dx = snd p /\ Z.abs dy = fst p)).
Proof.
  unfold DrawCircle_pixels. intros Hin. apply existsb_exists in Hin.
  destruct Hin as (p & Hp & Hon). exists p. split; [exact Hp|].
  rewrite orb_true_iff, !andb_true_iff, !Z.eqb_eq in Hon. exact Hon.
Qed.

(** X15.  [DrawCircle] with [1 <= radius] on a disc within the canvas
    returns and sets the pixels whose offset from the center is in
    [DrawCircle_pixels radius], and no other.  That set is the same under
    the eight symmetries of the circle, lies within the square of side
    [2 * radius + 1] around the center, and contains the four points at
    distance [radius] on the axes. *)
Theorem DrawCircle_symmetric (W H : Z) (fuel : nat) (xc yc r color : Z)
    (d : glcd) :
  W <= 255 -> H <= 255 ->
  1 <= r -> r <= xc -> xc + r < W -> r <= yc -> yc + r < H ->
  (256 <= fuel)%nat ->
  exists d',
    DrawCircle fuel xc yc r color d = Some d' /\
    (forall a b,
       pix d' a b =
       if DrawCircle_pixels r (a - xc) (b - yc) then color =? BLACK
       else pix d a b) /\
    (forall dx dy,
       DrawCircle_pixels r (- dx) dy = DrawCircle_pixels r dx dy /\
       DrawCircle_pixels r dx (- dy) = DrawCircle_pixels r dx dy /\
       DrawCircle_pixels r (- dx) (- dy) = DrawCircle_pixels r dx dy /\
       DrawCircle_pixels r dy dx = DrawCircle_pixels r dx dy /\
       DrawCircle_pixels r (- dy) dx = DrawCircle_pixels r dx dy /\
       DrawCircle_pixels r dy (- dx) = DrawCircle_pixels r dx dy /\
       DrawCircle_pixels r (- dy) (- dx) = DrawCircle_pixels r dx dy) /\
    (forall dx dy, DrawCircle_pixels r dx dy = true ->
       - r <= dx <= r /\ - r <= dy <= r) /\
    DrawCircle_pixels r 0 r = true /\ DrawCircle_pixels r r 0 = true.
Proof.
  intros HW HH Hr Hxc Hxcr Hyc Hycr Hfuel.
  destruct (DrawCircle_spec W H fuel xc yc r color d) as (d' & Hd' & Hpix);
    try assumption.
  destruct (arcs_checked r) as [Hfirst Hpts]; [lia|].
  exists d'. split; [exact Hd'|]. split; [exact Hpix|].
  split; [|split; [|split]].
  - intros dx dy.
    pose proof (DrawCircle_pixels_swap r dx dy) as Hswap.
    repeat split.
    + apply DrawCircle_pixels_opp_l.
    + apply DrawCircle_pixels_opp_r.
    + rewrite DrawCircle_pixels_opp_l. apply DrawCircle_pixels_opp_r.
    + exact Hswap.
    + rewrite DrawCircle_pixels_opp_l. exact Hswap.
    + rewrite DrawCircle_pixels_opp_r. exact Hswap.
    + rewrite DrawCircle_pixels_opp_l, DrawCircle_pixels_opp_r. exact Hswap.
  - intros dx dy Hin. apply DrawCircle_pixels_true in Hin.
    destruct Hin as (p & Hp & Hon). destruct (Hpts p Hp) as (H0 & H1 & _).
    lia.
  - unfold DrawCircle_pixels. apply existsb_exists. exists (0, r).
    split; [exact Hfirst|]. cbn [fst snd].
    rewrite orb_true_iff, !andb_true_iff, !Z.eqb_eq. lia.
  - unfold DrawCircle_pixels. apply existsb_exists. exists (0, r).
    split; [exact Hfirst|]. cbn [fst snd].
    rewrite orb_true_iff, !andb_true_iff, !Z.eqb_eq. lia.
Qed.

Lemma DrawCircle_symmetric_witness :
  exists d',
    DrawCircle 300 30 30 10 BLACK blank = Some d' /\
    (forall a b,
       pix d' a b =
       if DrawCircle_pixels 10 (a - 30) (b - 30) then BLACK =? BLACK
       else pix blank a b) /\
    (forall dx dy,
       DrawCircle_pixels 10 (- dx) dy = DrawCircle_pixels 10 dx dy /\
       DrawCircle_pixels 10 dx (- dy) = DrawCircle_pixels 10 dx dy /\
       DrawCircle_pixels 10 (- dx) (- dy) = DrawCircle_pixels 10 dx dy /\
       DrawCircle_pixels 10 dy dx = DrawCircle_pixels 10 dx dy /\
       DrawCircle_pixels 10 (- dy) dx = DrawCircle_pixels 10 dx dy /\
       DrawCircle_pixels 10 dy (- dx) = DrawCircle_pixels 10 dx dy /\
       DrawCircle_pixels 10 (- dy) (- dx) = DrawCircle_pixels 10 dx dy) /\
    (forall dx dy, DrawCircle_pixels 10 dx dy = true ->
       - 10 <= dx <= 10 /\ - 10 <= dy <= 10) /\
    DrawCircle_pixels 10 0 10 = true /\ DrawCircle_pixels 10 10 0 = true.
Proof. apply (DrawCircle_symmetric 128 64 300 30 30 10 BLACK blank); lia. Defined.

(** X16.  The outline lies on the disc: after [FillCircle], [DrawCircle]
    with the same center, radius and color returns and changes no pixel. *)
Theorem DrawCircle_after_FillCircle (W H : Z) (fuel : nat)
    (xc yc r color : Z) (d : glcd) :
  W <= 255 -> H <= 255 ->
  1 <= r -> r <= xc -> xc + r < W -> r <= yc -> yc + r < H ->
  (256 < fuel)%nat ->
  exists d1 d2,
    FillCircle W H fuel xc yc r color d = Some d1 /\
    DrawCircle fuel xc yc r color d1 = Some d2 /\
    forall a b, pix d2 a b = pix d1 a b.
Proof.
  intros HW HH Hr Hxc Hxcr Hyc Hycr Hfuel.
  destruct (FillCircle_spec W H fuel xc yc r color d) as (d1 & Hd1 & Hp1);
    try lia.
  destruct (DrawCircle_spec W H fuel xc yc r color d1) as (d2 & Hd2 & Hp2);
    try lia.
  destruct (arcs_checked r) as [_ Hpts]; [lia|].
  exists d1, d2. split; [exact Hd1|]. split; [exact Hd2|].
  intros a b. rewrite Hp2.
  destruct (DrawCircle_pixels r (a - xc) (b - yc)) eqn:Hdc; [|reflexivity].
  rewrite Hp1.
  apply DrawCircle_pixels_true in Hdc. destruct Hdc as (p & Hp & Hon).
  destruct (Hpts p Hp) as (H0 & H1 & H2 & Hfc).
  rewrite FillCircle_pixels_abs.
  destruct Hon as [[Hx Hy] | [Hx Hy]]; rewrite Hx, Hy.
  - rewrite Hfc. reflexivity.
  - rewrite FillCircle_pixels_diagonal by lia. rewrite Hfc. reflexivity.
Qed.

Lemma DrawCircle_after_FillCircle_witness :
  exists d1 d2,
    FillCircle 128 64 300 30 30 10 BLACK blank = Some d1 /\
    DrawCircle 300 30 30 10 BLACK d1 = Some d2 /\
    forall a b, pix d2 a b = pix d1 a b.
Proof.
  apply (DrawCircle_after_FillCircle 128 64 300 30 30 10 BLACK blank); lia.
Defined.

(** X17.  [DrawCircle] with [radius = 0] sets more than the center: the
    pixel [(xCenter - 1, yCenter + 1)] is set as well. *)
Theorem DrawCircle_radius_0_strays (fuel : nat) (xc yc color : Z) (d : glcd) :
  1 <= xc < 256 -> 0 <= yc <= 254 -> (256 <= fuel)%nat ->
  exists d',
    DrawCircle fuel xc yc 0 color d = Some d' /\
    pix d' (xc - 1) (yc + 1) = (color =? BLACK).
Proof.
  intros Hx Hy Hfuel. unfold DrawCircle.
  rewrite Z.sub_0_r, Z.sub_0_r, (u8_small xc), (u8_small yc) by lia.
  apply DrawRoundRect_radius_0_dot; assumption.
Qed.

Lemma DrawCircle_radius_0_strays_witness :
  exists d',
    DrawCircle 300 30 30 0 BLACK blank = Some d' /\
    pix d' (30 - 1) (30 + 1) = (BLACK =? BLACK).
Proof. apply (DrawCircle_radius_0_strays 300 30 30 BLACK blank); lia. Defined.


(** ** DrawLine: the endpoints and the box between them *)

(** The error term of Bresenham's loop after [k] steps along the major axis
    and [n] steps along the minor one. *)
Lemma bresenham_steps (D dy E0 k n e : Z) :
  1 <= D -> 0 <= dy <= D -> 0 <= E0 <= D - 1 -> 0 <= k <= D ->
  0 <= e <= D - 1 -> e = E0 - k * dy + n * D ->
  0 <= n <= dy /\ (k = 0 -> n = 0) /\ (k = D -> n = dy).
Proof.
  intros HD Hdy HE Hk He Heq.
  assert (H1 : 0 <= k * dy) by nia.
  assert (H2 : k * dy <= D * dy) by nia.
  assert (Hn0 : 0 <= n) by nia.
  assert (Hn1 : n <= dy) by nia.
  split; [lia|]. split.
  - intros ->. nia.
  - intros ->. nia.
Qed.

(** The loop of [DrawLine] on a line whose extent along the major axis is
    between 1 and 128: it ends, it sets the two endpoints, and it changes
    pixels of the box between them only. *)
Lemma DrawLine_loop_bresenham (steep : bool) (D dy ystep color : Z)
    (X1 Y1 X2 Y2 : Z) (fuel : nat) (d : glcd) :
  1 <= D <= 128 -> X2 = X1 + D -> 0 <= dy <= D ->
  ystep = 1 \/ ystep = -1 -> Y2 = Y1 + ystep * dy ->
  0 <= X1 -> X2 <= 254 -> 0 <= Y1 <= 254 -> 0 <= Y2 <= 254 ->
  (256 < fuel)%nat ->
  exists s',
    while_loop fuel (fun s => ln_x s <=? X2)
      (DrawLine_body steep D dy ystep color) (mkLine X1 Y1 (i8 (D / 2)) d)
    = Some s' /\
    (if steep then pix (ln_dev s') Y1 X1 else pix (ln_dev s') X1 Y1)
      = (color =? BLACK) /\
    (if steep then pix (ln_dev s') Y2 X2 else pix (ln_dev s') X2 Y2)
      = (color =? BLACK) /\
    forall a b,
      pix (ln_dev s') a b = pix d a b \/
      (pix (ln_dev s') a b = (color =? BLACK) /\
       if steep
       then Z.min Y1 Y2 <= a <= Z.max Y1 Y2 /\ X1 <= b <= X2
       else X1 <= a <= X2 /\ Z.min Y1 Y2 <= b <= Z.max Y1 Y2).
Proof.
  intros HD HX2 Hdy Hystep HY2 HX1 HX2b HY1 HY2b Hfuel.
  assert (HE0 : 0 <= D / 2 <= D - 1).
  { split; [apply Z.div_pos; lia|].
    assert (D / 2 < D) by (apply Z.div_lt_upper_bound; lia). lia. }
  rewrite (i8_small (D / 2)) by lia.
  set (c := color =? BLACK).
  destruct (while_loop_rule
    (fun s : line_locals =>
       X1 <= ln_x s <= X2 + 1 /\
       (exists n,
          ln_error s = D / 2 - (ln_x s - X1) * dy + n * D /\
          0 <= ln_error s <= D - 1 /\
          (ln_x s <= X2 -> ln_y s = Y1 + ystep * n)) /\
       (X1 < ln_x s ->
        (if steep then pix (ln_dev s) Y1 X1 else pix (ln_dev s) X1 Y1) = c) /\
       (ln_x s = X2 + 1 ->
        (if steep then pix (ln_dev s) Y2 X2 else pix (ln_dev s) X2 Y2) = c) /\
       forall a b,
         pix (ln_dev s) a b = pix d a b \/
         (pix (ln_dev s) a b = c /\
          if steep
          then Z.min Y1 Y2 <= a <= Z.max Y1 Y2 /\ X1 <= b <= X2
          else X1 <= a <= X2 /\ Z.min Y1 Y2 <= b <= Z.max Y1 Y2))
    (fun s => Z.to_nat (X2 + 1 - ln_x s))
    (fun s => ln_x s <=? X2)
    (DrawLine_body steep D dy ystep color))
    with (fuel := fuel) (s := mkLine X1 Y1 (D / 2) d)
    as (s' & Hs' & (Hx & _ & Hstart & Hend & Hframe) & Hc).
  - intros [x y e dd] (Hx & (n & Heq & He & Hy) & Hstart & Hend & Hframe) Hc.
    cbn [ln_x ln_y ln_error ln_dev] in *. apply Z.leb_le in Hc.
    specialize (Hy Hc).
    destruct (bresenham_steps D dy (D / 2) (x - X1) n e) as (Hn & Hn0 & HnD);
      try lia.
    assert (Hyin : Z.min Y1 Y2 <= y <= Z.max Y1 Y2)
      by (destruct Hystep as [-> | ->]; lia).
    unfold DrawLine_body. cbn [ln_x ln_y ln_error ln_dev].
    rewrite (i8_small (e - dy)) by lia.
    rewrite (u8_small (x + 1)) by lia.
    set (dd' := if steep then SetDot y x color dd else SetDot x y color dd).
    assert (Hdot : (if steep then pix dd' y x else pix dd' x y) = c).
    { subst dd'. destruct steep; unfold SetDot; cbn [pix];
        rewrite !Z.eqb_refl; reflexivity. }
    assert (Hkeep : forall a b,
              pix dd' a b = pix dd a b \/
              (pix dd' a b = c /\ if steep then a = y /\ b = x
                                  else a = x /\ b = y)).
    { intros a b. subst dd'. destruct steep; unfold SetDot; cbn [pix];
        destruct (Z.eqb_spec a y), (Z.eqb_spec b x),
          (Z.eqb_spec a x), (Z.eqb_spec b y); cbn [andb]; auto. }
    assert (Hframe' : forall a b,
              pix dd' a b = pix d a b \/
              (pix dd' a b = c /\
               if steep
               then Z.min Y1 Y2 <= a <= Z.max Y1 Y2 /\ X1 <= b <= X2
               else X1 <= a <= X2 /\ Z.min Y1 Y2 <= b <= Z.max Y1 Y2)).
    { intros a b. destruct (Hkeep a b) as [Hk | [Hk Hpos]].
      - rewrite Hk. apply Hframe.
      - right. split; [exact Hk|]. destruct steep; lia. }
    assert (Hstart' :
              (if steep then pix dd' Y1 X1 else pix dd' X1 Y1) = c).
    { destruct (Z.eq_dec x X1) as [-> | Hne].
      - assert (n = 0) by lia. subst n.
        replace y with Y1 in Hdot by lia. exact Hdot.
      - specialize (Hstart ltac:(lia)).
        destruct steep.
        + destruct (Hkeep Y1 X1) as [Hk | [Hk _]]; congruence.
        + destruct (Hkeep X1 Y1) as [Hk | [Hk _]]; congruence. }
    assert (Hend' : x + 1 = X2 + 1 ->
              (if steep then pix dd' Y2 X2 else pix dd' X2 Y2) = c).
    { intros Hlast. assert (x = X2) by lia. subst x.
      assert (n = dy) by (apply HnD; lia). subst n.
      replace y with Y2 in Hdot by lia. exact Hdot. }
    destruct (Z.ltb_spec (e - dy) 0) as [Hneg | Hpos].
    + rewrite (i8_small (e - dy + D)) by lia.
      eexists. split; [reflexivity|]. cbn [ln_x ln_y ln_error ln_dev].
      split; [|lia].
      split; [lia|]. split.
      * exists (n + 1). split; [lia|]. split; [lia|].
        intros Hnext.
        destruct (bresenham_steps D dy (D / 2) (x + 1 - X1) (n + 1) (e - dy + D))
          as (Hn' & _); try lia.
        rewrite u8_small by (destruct Hystep as [-> | ->]; lia).
        lia.
      * split; [intros _; exact Hstart'|]. split; [exact Hend'|].
        exact Hframe'.
    + eexists. split; [reflexivity|]. cbn [ln_x ln_y ln_error ln_dev].
      split; [|lia].
      split; [lia|]. split.
      * exists n. split; [lia|]. split; [lia|]. intros _. exact Hy.
      * split; [intros _; exact Hstart'|]. split; [exact Hend'|].
        exact Hframe'.
  - cbn [ln_x ln_y ln_error ln_dev]. split; [lia|]. split.
    + exists 0. split; [lia|]. split; [lia|]. intros _. lia.
    + split; [lia|]. split; [lia|]. intros a b. left. reflexivity.
  - cbn [ln_x]. lia.
  - apply Z.leb_gt in Hc.
    exists s'. split; [exact Hs'|].
    split; [apply Hstart; lia|]. split; [apply Hend; lia|]. exact Hframe.
Qed.

(** The same for the values [DrawLine] computes after its swaps, a single
    point included. *)
Lemma DrawLine_loop_endpoints (steep : bool) (color : Z)
    (X1 Y1 X2 Y2 : Z) (fuel : nat) (d : glcd) :
  0 <= X1 <= X2 -> X2 <= 254 -> X2 - X1 <= 128 ->
  0 <= Y1 <= 254 -> 0 <= Y2 <= 254 -> Z.abs (Y2 - Y1) <= X2 - X1 ->
  (256 < fuel)%nat ->
  exists s',
    while_loop fuel (fun s => ln_x s <=? X2)
      (DrawLine_body steep (u8 (X2 - X1)) (u8 (_GLCD_absDiff Y2 Y1))
         (if Y1 <? Y2 then 1 else -1) color)
      (mkLine X1 Y1 (i8 (u8 (X2 - X1) / 2)) d)
    = Some s' /\
    (if steep then pix (ln_dev s') Y1 X1 else pix (ln_dev s') X1 Y1)
      = (color =? BLACK) /\
    (if steep then pix (ln_dev s') Y2 X2 else pix (ln_dev s') X2 Y2)
      = (color =? BLACK) /\
    forall a b,
      pix (ln_dev s') a b = pix d a b \/
      (pix (ln_dev s') a b = (color =? BLACK) /\
       if steep
       then Z.min Y1 Y2 <= a <= Z.max Y1 Y2 /\ X1 <= b <= X2
       else X1 <= a <= X2 /\ Z.min Y1 Y2 <= b <= Z.max Y1 Y2).
Proof.
  intros HX HX2 HD HY1 HY2 Hdy Hfuel.
  assert (Habs : _GLCD_absDiff Y2 Y1 = Z.abs (Y2 - Y1))
    by (unfold _GLCD_absDiff; destruct (Z.gtb_spec Y2 Y1); lia).
  rewrite Habs, (u8_small (X2 - X1)), (u8_small (Z.abs (Y2 - Y1))) by lia.
  destruct (Z.eq_dec X1 X2) as [Heq | Hne].
  - subst X2. assert (Y2 = Y1) by lia. subst Y2.
    rewrite !Z.sub_diag. change (Z.abs 0) with 0. change (i8 (0 / 2)) with 0.
    destruct (DrawLine_loop_straight steep 0 (if Y1 <? Y1 then 1 else -1)
                color X1 X1 Y1 0 fuel d) as (s' & Hs' & _ & Hpix); try lia.
    exists s'. split; [exact Hs'|].
    split; [destruct steep; rewrite Hpix; zcmp; reflexivity|].
    split; [destruct steep; rewrite Hpix; zcmp; reflexivity|].
    intros a b. rewrite Hpix.
    destruct steep; zcmp; auto; right; (split; [reflexivity|lia]).
  - apply DrawLine_loop_bresenham; try lia.
    + destruct (Z.ltb_spec Y1 Y2); auto.
    + destruct (Z.ltb_spec Y1 Y2); lia.
Qed.

(** X18.  For two points of the canvas at most 128 apart in each direction,
    [DrawLine] returns, gives both endpoints the color, and changes no
    pixel outside the box spanned by the two points; a pixel of the box is
    either left as it was or given the color. *)
Theorem DrawLine_endpoints (W H : Z) (fuel : nat) (x1 y1 x2 y2 color : Z)
    (d : glcd) :
  W <= 255 -> H <= 255 ->
  0 <= x1 < W -> 0 <= y1 < H -> 0 <= x2 < W -> 0 <= y2 < H ->
  Z.abs (x2 - x1) <= 128 -> Z.abs (y2 - y1) <= 128 ->
  (256 < fuel)%nat ->
  exists d',
    DrawLine W H fuel x1 y1 x2 y2 color d = Some d' /\
    pix d' x1 y1 = (color =? BLACK) /\
    pix d' x2 y2 = (color =? BLACK) /\
    forall a b,
      pix d' a b = pix d a b \/
      (pix d' a b = (color =? BLACK) /\
       Z.min x1 x2 <= a <= Z.max x1 x2 /\ Z.min y1 y2 <= b <= Z.max y1 y2).
Proof.
  intros HW HH Hx1 Hy1 Hx2 Hy2 Hdx Hdy Hfuel.
  unfold DrawLine.
  destruct (Z.geb_spec x1 W); [lia|]. destruct (Z.geb_spec x2 W); [lia|].
  destruct (Z.geb_spec y1 H); [lia|]. destruct (Z.geb_spec y2 H); [lia|].
  assert (Hax : _GLCD_absDiff x1 x2 = Z.abs (x2 - x1))
    by (unfold _GLCD_absDiff; destruct (Z.gtb_spec x1 x2); lia).
  assert (Hay : _GLCD_absDiff y1 y2 = Z.abs (y2 - y1))
    by (unfold _GLCD_absDiff; destruct (Z.gtb_spec y1 y2); lia).
  rewrite Hax, Hay.
  destruct (Z.gtb_spec (Z.abs (y2 - y1)) (Z.abs (x2 - x1))) as [Hst | Hns];
    cbv beta iota zeta.
  - destruct (Z.gtb_spec y1 y2) as [Hsw | Hnsw]; cbv beta iota zeta.
    + destruct (DrawLine_loop_endpoints true color y2 x2 y1 x1 fuel d)
        as (s' & Hs' & Hp1 & Hp2 & Hfr); try lia.
      rewrite Hs'. cbn [bind]. exists (ln_dev s').
      split; [reflexivity|]. split; [exact Hp2|]. split; [exact Hp1|].
      intros a b. destruct (Hfr a b) as [Hk | [Hk Hbox]]; [left; exact Hk|].
      right. split; [exact Hk|]. lia.
    + destruct (DrawLine_loop_endpoints true color y1 x1 y2 x2 fuel d)
        as (s' & Hs' & Hp1 & Hp2 & Hfr); try lia.
      rewrite Hs'. cbn [bind]. exists (ln_dev s').
      split; [reflexivity|]. split; [exact Hp1|]. split; [exact Hp2|].
      intros a b. destruct (Hfr a b) as [Hk | [Hk Hbox]]; [left; exact Hk|].
      right. split; [exact Hk|]. lia.
  - destruct (Z.gtb_spec x1 x2) as [Hsw | Hnsw]; cbv beta iota zeta.
    + destruct (DrawLine_loop_endpoints false color x2 y2 x1 y1 fuel d)
        as (s' & Hs' & Hp1 & Hp2 & Hfr); try lia.
      rewrite Hs'. cbn [bind]. exists (ln_dev s').
      split; [reflexivity|]. split; [exact Hp2|]. split; [exact Hp1|].
      intros a b. destruct (Hfr a b) as [Hk | [Hk Hbox]]; [left; exact Hk|].
      right. split; [exact Hk|]. lia.
    + destruct (DrawLine_loop_endpoints false color x1 y1 x2 y2 fuel d)
        as (s' & Hs' & Hp1 & Hp2 & Hfr); try lia.
      rewrite Hs'. cbn [bind]. exists (ln_dev s').
      split; [reflexivity|]. split; [exact Hp1|]. split; [exact Hp2|].
      intros a b. destruct (Hfr a b) as [Hk | [Hk Hbox]]; [left; exact Hk|].
      right. split; [exact Hk|]. lia.
Qed.

Lemma DrawLine_endpoints_witness :
  exists d',
    DrawLine 128 64 300 3 5 100 60 BLACK blank = Some d' /\
    pix d' 3 5 = (BLACK =? BLACK) /\
    pix d' 100 60 = (BLACK =? BLACK) /\
    forall a b,
      pix d' a b = pix blank a b \/
      (pix d' a b = (BLACK =? BLACK) /\
       Z.min 3 100 <= a <= Z.max 3 100 /\ Z.min 5 60 <= b <= Z.max 5 60).
Proof. apply (DrawLine_endpoints 128 64 300 3 5 100 60 BLACK blank); lia. Defined.

(** The bound of 128 is needed: the error term is an [int8_t], and on a
    192-column canvas the line from [(0, 0)] to [(191, 1)] ends one row
    below its second endpoint. *)
Example DrawLine_long_line_misses_endpoint :
  option_map (fun d' => (pix d' 191 1, pix d' 191 2))
    (DrawLine 192 64 300 0 0 191 1 BLACK blank) = Some (false, true).
Proof. vm_compute. reflexivity. Qed.

(** ** DrawLine: coordinates out of range *)


